(** * system_log.py: rotating file handler, bounded Redis log buffer and
      logging configuration, embedded as state-passing functions.

    The Python module keeps its state in three places: the file system
    (log files in the working directory), the Redis server (one list per
    source tag) and the process (the root logger's handlers and two module
    globals).  Each of them is a record below; every Python function is a
    computation in a small state-and-exception monad over the record it
    touches. *)

From stdpp Require Import gmap strings list fin_maps pretty.
From Stdlib Require Import ZArith Lia Ascii.

Local Open Scope string_scope.
Local Open Scope Z_scope.

(** ** Python exceptions and the state-and-exception monad *)

(** The exceptions the modelled code can meet.  [ConnectionError] carries
    the text that [str(e)] yields. *)
Inductive exn : Type :=
  | AttributeError
  | FileNotFoundError
  | ValueError
  | BadRequestKeyError
  | ConnectionError (msg : string).

(** A call either returns a value or raises; the state reached so far is
    kept in both cases, as mutations made before a [raise] stay visible. *)
Inductive outcome (S A : Type) : Type :=
  | Ret (a : A) (s : S)
  | Raise (e : exn) (s : S).
Arguments Ret {S A} a s.
Arguments Raise {S A} e s.

Definition py (S A : Type) : Type := S → outcome S A.

Definition ret {S A} (a : A) : py S A := λ s, Ret a s.
Definition raise {S A} (e : exn) : py S A := λ s, Raise e s.
Definition bind {S A B} (m : py S A) (k : A → py S B) : py S B :=
  λ s, match m s with
       | Ret a s' => k a s'
       | Raise e s' => Raise e s'
       end.
Definition get {S} : py S S := λ s, Ret s s.
Definition modify {S} (f : S → S) : py S unit := λ s, Ret tt (f s).

(** [try: m  except Exception: h]. *)
Definition try_except {S A} (m : py S A) (h : exn → py S A) : py S A :=
  λ s, match m s with
       | Ret a s' => Ret a s'
       | Raise e s' => h e s'
       end.

(** The state an outcome ends in, whichever way the call ended. *)
Definition final {S A} (o : outcome S A) : S :=
  match o with Ret _ s => s | Raise _ s => s end.

Declare Scope py_scope.
Delimit Scope py_scope with py.
Notation "x <- m ;; k" := (bind m (λ x, k))
  (at level 100, m at next level, k at level 200, right associativity) : py_scope.
Notation "m ;; k" := (bind m (λ _, k))
  (at level 100, k at level 200, right associativity) : py_scope.
Local Open Scope py_scope.

(** [for x in l: body x]. *)
Fixpoint for_each {S A} (l : list A) (body : A → py S unit) : py S unit :=
  match l with
  | [] => ret tt
  | x :: l' => body x ;; for_each l' body
  end.

(** ** Python string operations used by the module *)

(** [s.replace(old, new)] for a non-empty [old]: scan left to right, and
    after a match skip the rest of the matched text. *)
Fixpoint replace_go (old new : string) (skip : nat) (s : string) : string :=
  match s with
  | EmptyString => EmptyString
  | String c s' =>
      match skip with
      | S k => replace_go old new k s'
      | O =>
          if String.prefix old s
          then new +:+ replace_go old new (String.length old - 1)%nat s'
          else String c (replace_go old new 0%nat s')
      end
  end.

(** [s.replace(old, new)] with an empty [old] puts [new] before every
    character and at the end. *)
Fixpoint replace_empty (new : string) (s : string) : string :=
  match s with
  | EmptyString => new
  | String c s' => new +:+ String c (replace_empty new s')
  end.

Definition str_replace (s old new : string) : string :=
  match old with
  | EmptyString => replace_empty new s
  | _ => replace_go old new 0%nat s
  end.

(** [s.split(sep)[-1]] for a one-character separator: the text after the
    last separator, the whole string when there is none. *)
Fixpoint after_last (sep : ascii) (s : string) : option string :=
  match s with
  | EmptyString => None
  | String c s' =>
      match after_last sep s' with
      | Some r => Some r
      | None => if Ascii.eqb c sep then Some s' else None
      end
  end.

Definition split_last (sep : ascii) (s : string) : string :=
  default s (after_last sep s).

(** ** Python builtins the module calls

    [int(s)], [s.upper()] and [s.capitalize()] work on Unicode text: [int]
    reads the decimal digits of every script and refuses numerals longer
    than the interpreter's digit limit, and the two case conversions follow
    the Unicode case mappings.  The module only passes their arguments in
    and their results on, so the development takes the three functions as
    parameters; [py_int s] is [None] when [int(s)] raises [ValueError].
    Every property below is stated for arbitrary functions in their place,
    and so holds for the interpreter's own.  The one thing asked of them is
    what [capitalize] does to ASCII text, written out first. *)

Fixpoint is_ascii (s : string) : bool :=
  match s with
  | EmptyString => true
  | String c s' => ((nat_of_ascii c <? 128)%nat && is_ascii s')%bool
  end.

Definition ascii_upper (c : ascii) : ascii :=
  let n := nat_of_ascii c in
  if ((97 <=? n)%nat && (n <=? 122)%nat)%bool then ascii_of_nat (n - 32) else c.

Definition ascii_lower (c : ascii) : ascii :=
  let n := nat_of_ascii c in
  if ((65 <=? n)%nat && (n <=? 90)%nat)%bool then ascii_of_nat (n + 32) else c.

Fixpoint str_map (f : ascii → ascii) (s : string) : string :=
  match s with
  | EmptyString => EmptyString
  | String c s' => String (f c) (str_map f s')
  end.

(** [s.capitalize()] on ASCII text: the first character in upper case, the
    others in lower case. *)
Definition capitalize_ascii (s : string) : string :=
  match s with
  | EmptyString => EmptyString
  | String c s' => String (ascii_upper c) (str_map ascii_lower s')
  end.

Class Builtins : Type := {
  py_int : string → option Z;
  str_upper : string → string;
  str_capitalize : string → string;
  str_capitalize_ascii s : is_ascii s = true → str_capitalize s = capitalize_ascii s;
}.

(** *** The builtins on ASCII text

    On text of ASCII characters [upper] and [int] can be written out as
    well; the concrete runs at the end of the development use the three
    functions below, on ASCII inputs only. *)
Definition upper_ascii (s : string) : string := str_map ascii_upper s.

(** [int(s)] in base ten: surrounding white space, one optional sign, then
    decimal digits, where single underscores may separate digits.  A
    numeral of more than 4300 digits, leading zeros counted, is refused
    like a malformed one (the default of [sys.set_int_max_str_digits]). *)
Definition is_py_space (c : ascii) : bool :=
  let n := nat_of_ascii c in
  ((n =? 32)%nat || ((9 <=? n)%nat && (n <=? 13)%nat))%bool.

Definition digit_val (c : ascii) : option Z :=
  let n := nat_of_ascii c in
  if ((48 <=? n)%nat && (n <=? 57)%nat)%bool then Some (Z.of_nat (n - 48)) else None.

Fixpoint lstrip (s : string) : string :=
  match s with
  | EmptyString => EmptyString
  | String c s' => if is_py_space c then lstrip s' else s
  end.

Definition strip (s : string) : string :=
  String.rev (lstrip (String.rev (lstrip s))).

(** [count] is the number of digits read so far. *)
Fixpoint parse_digits (acc : Z) (count : nat) (after_digit : bool) (s : string) : option Z :=
  match s with
  | EmptyString =>
      if (after_digit && (count <=? 4300)%nat)%bool then Some acc else None
  | String c s' =>
      match digit_val c with
      | Some d => parse_digits (acc * 10 + d) (S count) true s'
      | None =>
          if (Ascii.eqb c "_" && after_digit)%bool
          then parse_digits acc count false s'
          else None
      end
  end.

Definition int_ascii (s : string) : option Z :=
  match strip s with
  | String "+" s' => parse_digits 0 0 false s'
  | String "-" s' => Z.opp <$> parse_digits 0 0 false s'
  | s' => parse_digits 0 0 false s'
  end.

Definition ascii_builtins : Builtins :=
  {| py_int := int_ascii; str_upper := upper_ascii;
     str_capitalize := capitalize_ascii;
     str_capitalize_ascii := λ _ _, eq_refl |}.

(** ** The operating system: working directory, files, wall clock *)

(** One reading of the local clock: [date] is what
    [datetime.now().strftime("%Y-%m-%d")] gives, [asctime] the time stamp
    the logging formatter prints. *)
Record timestamp : Type := { date : string; asctime : string }.

(** [cwd] holds the components of the working directory, so that it is
    absolute by construction.  [files] maps an absolute path to the bytes of
    the file; the directory is flat, as the module only touches plain files
    in the working directory.  [clock] is the sequence of clock readings the
    process will get and [tick] counts the readings made so far. *)
Record os_state : Type := {
  cwd : list string;
  files : gmap string string;
  clock : nat → timestamp;
  tick : nat;
}.

Definition set_files (f : gmap string string → gmap string string)
    (o : os_state) : os_state :=
  {| cwd := cwd o; files := f (files o); clock := clock o; tick := tick o |}.

Fixpoint cwd_string (parts : list string) : string :=
  match parts with
  | [] => EmptyString
  | p :: ps => "/" +:+ p +:+ cwd_string ps
  end.

(** [os.path.abspath] on a name without [.] or [..] components. *)
Definition abspath (o : os_state) (p : string) : string :=
  if String.prefix "/" p then p else cwd_string (cwd o) +:+ "/" +:+ p.

(** The file a path names, if there is one. *)
Definition file_at (o : os_state) (p : string) : option string :=
  files o !! abspath o p.

Definition advance (o : os_state) : os_state :=
  {| cwd := cwd o; files := files o; clock := clock o; tick := S (tick o) |}.

(** [datetime.now()]: the next reading of the clock. *)
Definition now : py os_state timestamp :=
  λ o, Ret (clock o (tick o)) (advance o).

(** [os.path.getsize(p)] raises when the file is missing. *)
Definition getsize (p : string) : py os_state Z :=
  λ o, match file_at o p with
       | Some c => Ret (Z.of_nat (String.length c)) o
       | None => Raise FileNotFoundError o
       end.

Definition path_exists (p : string) : py os_state bool :=
  λ o, Ret (bool_decide (is_Some (file_at o p))) o.

(** [os.rename(src, dst)] with POSIX semantics: an existing [dst] is
    replaced; a missing [src] raises.  The directory of the model holds
    plain files only and the system grants every operation on them, so a
    missing file is the one failure of the file system that is modelled; a
    rename onto a directory, a missing permission or a full disk are
    outside the model. *)
Definition rename (src dst : string) : py os_state unit :=
  λ o, match file_at o src with
       | Some c =>
           Ret tt (set_files (λ m, <[abspath o dst := c]> (delete (abspath o src) m)) o)
       | None => Raise FileNotFoundError o
       end.

(** [open(p, "a")]: create the file when it is missing.  As with [rename],
    the model never refuses to open a file. *)
Definition open_append (p : string) : py os_state unit :=
  λ o, match file_at o p with
       | Some _ => Ret tt o
       | None => Ret tt (set_files (λ m, <[abspath o p := EmptyString]> m) o)
       end.

(** Bytes leaving a stream buffer reach the file the stream was opened on;
    when that file has been unlinked meanwhile they reach no path. *)
Definition append_bytes (p : string) (data : string) : py os_state unit :=
  λ o, Ret tt (set_files (alter (λ c, c +:+ data) (abspath o p)) o).

(** ** CustomRotatingFileHandler *)

Record LogRecord : Type := {
  rec_asctime : string;
  rec_levelname : string;
  rec_message : string;
}.

(** The attributes of a handler object.  [base_filename] is the attribute
    the subclass maintains, [baseFilename] the one [logging.FileHandler]
    sets once in its constructor and opens the stream on.  [stream] is
    [None] for a closed handler and otherwise holds the bytes written but
    not yet flushed.  An open stream always writes to the file at
    [baseFilename]: [_open] uses no other path, and [doRollover] closes the
    stream before it renames anything. *)
Record handler : Type := {
  current_date : string;
  base_filename : string;
  baseFilename : string;
  maxBytes : Z;
  backupCount : Z;
  stream : option string;
}.

Definition set_stream (b : option string) (h : handler) : handler :=
  {| current_date := current_date h; base_filename := base_filename h;
     baseFilename := baseFilename h; maxBytes := maxBytes h;
     backupCount := backupCount h; stream := b |}.

Definition set_date (d f : string) (h : handler) : handler :=
  {| current_date := d; base_filename := f;
     baseFilename := baseFilename h; maxBytes := maxBytes h;
     backupCount := backupCount h; stream := stream h |}.

(** A method runs on the object and the operating system together. *)
Record hst : Type := { self : handler; os : os_state }.

Definition on_os {A} (m : py os_state A) : py hst A :=
  λ s, match m (os s) with
       | Ret a o => Ret a {| self := self s; os := o |}
       | Raise e o => Raise e {| self := self s; os := o |}
       end.

Definition on_self (f : handler → handler) : py hst unit :=
  modify (λ s, {| self := f (self s); os := os s |}).

Definition attr {A} (f : handler → A) : py hst A := λ s, Ret (f (self s)) s.

(** [self.stream.flush()]; on a handler whose stream is [None] the
    attribute access raises. *)
Definition stream_flush : py hst unit :=
  b <- attr stream ;;
  match b with
  | None => raise AttributeError
  | Some buf =>
      p <- attr baseFilename ;;
      on_os (append_bytes p buf) ;;
      on_self (set_stream (Some EmptyString))
  end.

(** [self.stream.close()] flushes what is buffered. *)
Definition stream_close : py hst unit := stream_flush.

(** [self._open()] opens [self.baseFilename] for appending. *)
Definition _open : py hst (option string) :=
  p <- attr baseFilename ;;
  on_os (open_append p) ;;
  ret (Some EmptyString).

(** [f"{today}.txt"] substituted for the last [_]-separated piece of
    [self.baseFilename]. *)
Definition redate (h : handler) (new_date : string) : string :=
  str_replace (baseFilename h) (split_last "_" (baseFilename h)) (new_date +:+ ".txt").

Definition __init__ (filename : string) (max_bytes backup_count : Z) : py os_state handler :=
  t <- now ;;
  let name := str_replace filename ".txt" ("_" +:+ date t +:+ ".txt") in
  o <- get ;;
  let h := {| current_date := date t; base_filename := name;
              baseFilename := abspath o name; maxBytes := max_bytes;
              backupCount := backup_count; stream := None |} in
  open_append (baseFilename h) ;;
  ret (set_stream (Some EmptyString) h).

Definition shouldRollover (record : LogRecord) : py hst bool :=
  stream_flush ;;
  p <- attr baseFilename ;;
  size <- on_os (getsize p) ;;
  limit <- attr maxBytes ;;
  if bool_decide (limit ≤ size) then ret true
  else
    t <- on_os now ;;
    let new_date := date t in
    h <- attr id ;;
    if bool_decide (new_date ≠ current_date h) then
      on_self (set_date new_date (redate h new_date)) ;;
      ret true
    else ret false.

Definition backup_name (i : nat) (d : string) : string :=
  "system_logs_" +:+ pretty i +:+ "_" +:+ d +:+ ".txt".

(** [range(n - 1, 0, -1)]. *)
Definition range_down (n : Z) : list nat := rev (seq 1 (Z.to_nat (n - 1))).

Definition shift_backup (d : string) (i : nat) : py os_state unit :=
  let old_file := backup_name i d in
  let new_file := backup_name (i + 1) d in
  e <- path_exists old_file ;;
  if e : bool then rename old_file new_file else ret tt.

Definition doRollover : py hst unit :=
  b <- attr stream ;;
  (if b is Some _ then stream_close ;; on_self (set_stream None) else ret tt) ;;
  t <- on_os now ;;
  let new_date := date t in
  h <- attr id ;;
  (if bool_decide (new_date ≠ current_date h)
   then on_self (set_date new_date (redate h new_date))
   else ret tt) ;;
  h <- attr id ;;
  on_os (for_each (range_down (backupCount h)) (shift_backup (current_date h))) ;;
  let log_backup := backup_name 1 (current_date h) in
  e <- on_os (path_exists (base_filename h)) ;;
  (if e : bool then on_os (rename (base_filename h) log_backup) else ret tt) ;;
  b <- _open ;;
  on_self (set_stream b).

(** The line terminator of [logging.StreamHandler]. *)
Definition terminator : string := String (ascii_of_nat 10) EmptyString.

(** The formatter [configure_logging] installs. *)
Definition format (r : LogRecord) : string :=
  rec_asctime r +:+ " - " +:+ rec_levelname r +:+ " - " +:+ rec_message r.

(** [Handler.handleError] reports on [stderr] and returns. *)
Definition handleError (record : LogRecord) : py hst unit := ret tt.

(** [logging.StreamHandler.emit]. *)
Definition StreamHandler_emit (record : LogRecord) : py hst unit :=
  try_except
    (let msg := format record in
     b <- attr stream ;;
     match b with
     | None => raise AttributeError
     | Some buf => on_self (set_stream (Some (buf +:+ msg +:+ terminator))) ;; stream_flush
     end)
    (λ _, handleError record).

(** [logging.FileHandler.emit]; the handler's mode is ["a"]. *)
Definition FileHandler_emit (record : LogRecord) : py hst unit :=
  b <- attr stream ;;
  (if b is Some _ then ret tt else b' <- _open ;; on_self (set_stream b')) ;;
  b <- attr stream ;;
  if b is Some _ then StreamHandler_emit record else ret tt.

(** [logging.handlers.BaseRotatingHandler.emit], which the subclass reaches
    through [super().emit(record)]; its calls to [shouldRollover] and
    [doRollover] dispatch to the subclass. *)
Definition BaseRotatingHandler_emit (record : LogRecord) : py hst unit :=
  try_except
    (r <- shouldRollover record ;;
     (if r : bool then doRollover else ret tt) ;;
     FileHandler_emit record)
    (λ _, handleError record).

Definition emit (record : LogRecord) : py hst unit :=
  r <- shouldRollover record ;;
  (if r : bool then doRollover else ret tt) ;;
  BaseRotatingHandler_emit record.

(** ** The Redis server *)

(** A list key: its elements and, when one is set, the server time (in
    seconds) at which the key expires. *)
Record rentry : Type := { items : list string; expire_at : option Z }.

(** [fault] is [Some msg] while the server cannot be reached: every command
    then raises a connection error with that text. *)
Record redis : Type := { fault : option string; db : gmap string rentry }.

Definition alive (t : Z) (e : rentry) : bool :=
  match expire_at e with
  | None => true
  | Some x => bool_decide (t < x)
  end.

(** The key as the server sees it at time [t]: an expired key is gone. *)
Definition fetch (t : Z) (key : string) (r : redis) : option rentry :=
  match db r !! key with
  | Some e => if alive t e then Some e else None
  | None => None
  end.

Definition store (key : string) (v : option rentry) (r : redis) : redis :=
  {| fault := fault r;
     db := match v with Some e => <[key := e]> (db r) | None => delete key (db r) end |}.

Definition command {A} (f : redis → A * redis) : py redis A :=
  λ r, match fault r with
       | Some msg => Raise (ConnectionError msg) r
       | None => let '(a, r') := f r in Ret a r'
       end.

(** The elements from index [start] to index [stop], both inclusive, with
    the server's treatment of negative and out-of-range indices. *)
Definition redis_range (start stop : Z) (l : list string) : list string :=
  let n := Z.of_nat (List.length l) in
  let s := if bool_decide (start < 0) then n + start else start in
  let e := if bool_decide (stop < 0) then n + stop else stop in
  let s := if bool_decide (s < 0) then 0 else s in
  if bool_decide (e < s ∨ n ≤ s) then []
  else
    let e := if bool_decide (n ≤ e) then n - 1 else e in
    take (Z.to_nat (e - s + 1)) (drop (Z.to_nat s) l).

Definition rpush (t : Z) (key value : string) : py redis Z :=
  command (λ r,
    let e := default {| items := []; expire_at := None |} (fetch t key r) in
    let l := (items e ++ [value])%list in
    (Z.of_nat (List.length l), store key (Some {| items := l; expire_at := expire_at e |}) r)).

Definition ltrim (t : Z) (key : string) (start stop : Z) : py redis bool :=
  command (λ r,
    match fetch t key r with
    | None => (true, store key None r)
    | Some e =>
        match redis_range start stop (items e) with
        | [] => (true, store key None r)
        | l => (true, store key (Some {| items := l; expire_at := expire_at e |}) r)
        end
    end).

Definition lrange (t : Z) (key : string) (start stop : Z) : py redis (list string) :=
  command (λ r,
    match fetch t key r with
    | None => ([], r)
    | Some e => (redis_range start stop (items e), r)
    end).

(** [-2] for a missing key, [-1] for a key without expiry, else the
    seconds left. *)
Definition ttl (t : Z) (key : string) : py redis Z :=
  command (λ r,
    match fetch t key r with
    | None => (-2, r)
    | Some e => (match expire_at e with None => -1 | Some x => x - t end, r)
    end).

Definition expire (t : Z) (key : string) (seconds : Z) : py redis bool :=
  command (λ r,
    match fetch t key r with
    | None => (false, r)
    | Some e => (true, store key (Some {| items := items e; expire_at := Some (t + seconds) |}) r)
    end).

Definition redis_delete (key : string) : py redis Z :=
  command (λ r, (if db r !! key is Some _ then 1 else 0, store key None r)).

(** ** The process: Redis client, operating system, root logger, globals *)

Record system : Type := {
  redis_client : redis;
  host : os_state;
  logger_handlers : list handler;
  local_max_bytes : Z;
  local_backup_count : Z;
}.

Definition set_redis (r : redis) (s : system) : system :=
  {| redis_client := r; host := host s; logger_handlers := logger_handlers s;
     local_max_bytes := local_max_bytes s;
     local_backup_count := local_backup_count s |}.

Definition on_redis {A} (m : py redis A) : py system A :=
  λ s, match m (redis_client s) with
       | Ret a r => Ret a (set_redis r s)
       | Raise e r => Raise e (set_redis r s)
       end.

Definition set_logger (hs : list handler) (o : os_state) (s : system) : system :=
  {| redis_client := redis_client s; host := o; logger_handlers := hs;
     local_max_bytes := local_max_bytes s;
     local_backup_count := local_backup_count s |}.

Definition on_host {A} (m : py os_state A) : py system A :=
  λ s, match m (host s) with
       | Ret a o => Ret a (set_logger (logger_handlers s) o s)
       | Raise e o => Raise e (set_logger (logger_handlers s) o s)
       end.

Definition set_config (max_bytes backup_count : Z) (s : system) : system :=
  {| redis_client := redis_client s; host := host s;
     logger_handlers := logger_handlers s;
     local_max_bytes := max_bytes; local_backup_count := backup_count |}.

Definition LOG_KEY : string := "system_logs".

Section process.
Context {B : Builtins}.

(** [Logger.callHandlers]: each handler of the root logger emits the record.
    [seen] are the handlers already served, [todo] the remaining ones. *)
Fixpoint callHandlers (record : LogRecord) (seen todo : list handler) : py system unit :=
  match todo with
  | [] => ret tt
  | h :: rest =>
      λ s,
        let o := emit record {| self := h; os := host s |} in
        let h' := self (final o) in
        let s' := set_logger (seen ++ h' :: rest)%list (os (final o)) s in
        match o with
        | Ret _ _ => callHandlers record (seen ++ [h'])%list rest s'
        | Raise e _ => Raise e s'
        end
  end.

(** [logger.info(msg)] on the root logger, whose level is [INFO]. *)
Definition logger_info (msg : string) : py system unit :=
  t <- on_host now ;;
  let record := {| rec_asctime := asctime t; rec_levelname := "INFO"; rec_message := msg |} in
  s <- get ;;
  callHandlers record [] (logger_handlers s).

Definition configure_logging (max_bytes backup_count : Z) : py system unit :=
  modify (set_config max_bytes backup_count) ;;
  modify (λ s, set_logger [] (host s) s) ;;
  log_handler <- on_host (__init__ "system_logs.txt" max_bytes backup_count) ;;
  modify (λ s, set_logger (logger_handlers s ++ [log_handler])%list (host s) s).

(** [t] is the server time at which the call's Redis commands run. *)
Definition log_to_redis (t : Z) (message : string) (source : string) : py system unit :=
  let key := LOG_KEY +:+ "_" +:+ source in
  on_redis (rpush t key message) ;;
  on_redis (ltrim t key (-1000) (-1)) ;;
  logger_info ("[" +:+ str_upper source +:+ "] " +:+ message) ;;
  remaining <- on_redis (ttl t key) ;;
  if bool_decide (remaining = -1)
  then on_redis (expire t key (7 * 24 * 60 * 60)) ;; ret tt
  else ret tt.

(** ** The web facade *)

Inductive json : Type :=
  | LogsBody (success : bool) (logs : list string)
  | MessageBody (success : bool) (message : string)
  | ConfigBody (success : bool) (max_bytes backup_count : Z).

Record response : Type := { status : Z; body : json }.

Definition jsonify (b : json) : response := {| status := 200; body := b |}.
Definition jsonify_500 (b : json) : response := {| status := 500; body := b |}.

(** [str(e)]. *)
Definition exn_str (e : exn) : string :=
  match e with
  | ConnectionError msg => msg
  | AttributeError => "AttributeError"
  | FileNotFoundError => "FileNotFoundError"
  | ValueError => "ValueError"
  | BadRequestKeyError => "BadRequestKeyError"
  end.

(** [list(dict.fromkeys(logs))]: the dictionary keeps its keys in the order
    of their first insertion. *)
Definition dict_insert (d : list string) (k : string) : list string :=
  if bool_decide (k ∈ d) then d else (d ++ [k])%list.

Definition dict_fromkeys (l : list string) : list string :=
  fold_left dict_insert l [].

(** [args] are the query arguments of the request and [t] is the server
    time at which the list is read. *)
Definition get_logs (t : Z) (args : gmap string string) : py system response :=
  let log_type := default "listener" (args !! "type") in
  try_except
    (let key := LOG_KEY +:+ "_" +:+ log_type in
     logs <- on_redis (lrange t key 0 (-1)) ;;
     let logs := dict_fromkeys logs in
     ret (jsonify (LogsBody true logs)))
    (λ e, ret (jsonify_500 (MessageBody false ("Error fetching logs: " +:+ exn_str e)))).

Definition clear_logs (form : gmap string string) : py system response :=
  let log_type := default "listener" (form !! "type") in
  try_except
    (on_redis (redis_delete (LOG_KEY +:+ "_" +:+ log_type)) ;;
     ret (jsonify (MessageBody true (str_capitalize log_type +:+ " logs cleared successfully"))))
    (λ e, ret (jsonify_500 (MessageBody false ("Error clearing logs: " +:+ exn_str e)))).


(** [request.form[name]]. *)
Definition form_item {S} (form : gmap string string) (name : string) : py S string :=
  match form !! name with
  | Some v => ret v
  | None => raise BadRequestKeyError
  end.

Definition int_of {S} (v : string) : py S Z :=
  match py_int v with
  | Some n => ret n
  | None => raise ValueError
  end.

Definition update_logging_config (form : gmap string string) : py system response :=
  try_except
    (a <- form_item form "maxBytes" ;;
     n <- int_of a ;;
     let max_bytes := n * 1024 * 1024 in
     b <- form_item form "backupCount" ;;
     backup_count <- int_of b ;;
     if bool_decide (max_bytes ≤ 0 ∨ backup_count ≤ 0)
     then ret (jsonify (MessageBody false "Values must be greater than 0!"))
     else
       configure_logging max_bytes backup_count ;;
       ret (jsonify (MessageBody true "Logging configuration updated successfully!")))
    (λ e, match e with
          | ValueError =>
              ret (jsonify (MessageBody false "Invalid input. Please enter valid numbers!"))
          | _ => raise e
          end).

(** The module body: the globals get their defaults (1 MiB, 10 backups) and
    [configure_logging] installs the first handler. *)
Definition boot (r : redis) (o : os_state) : outcome system unit :=
  configure_logging (1024 * 1024 * 1) 10
    {| redis_client := r; host := o; logger_handlers := [];
       local_max_bytes := 1024 * 1024 * 1; local_backup_count := 10 |}.

End process.

(** ** The effects of the file operations, as functions on the state *)

(** These restate what the monadic operations above do to the state when
    they return; the lemmas below connect the two. *)

Definition flushed (h : handler) (o : os_state) : os_state :=
  match stream h with
  | Some buf => set_files (alter (λ c, c +:+ buf) (abspath o (baseFilename h))) o
  | None => o
  end.

Definition renamed (src dst : string) (o : os_state) : os_state :=
  match file_at o src with
  | Some c => set_files (λ m, <[abspath o dst := c]> (delete (abspath o src) m)) o
  | None => o
  end.

Definition shifted (d : string) (o : os_state) (i : nat) : os_state :=
  renamed (backup_name i d) (backup_name (i + 1) d) o.

Definition opened (p : string) (o : os_state) : os_state :=
  match file_at o p with
  | Some _ => o
  | None => set_files (λ m, <[abspath o p := EmptyString]> m) o
  end.

Definition rolled_date (new_date : string) (h : handler) : handler :=
  if bool_decide (new_date ≠ current_date h)
  then set_date new_date (redate h new_date) h
  else h.

Definition rolled (s : hst) : hst :=
  let o1 := advance (flushed (self s) (os s)) in
  let h2 := rolled_date (date (clock (os s) (tick (os s)))) (set_stream None (self s)) in
  let o3 := foldl (shifted (current_date h2)) o1 (range_down (backupCount h2)) in
  let o4 := renamed (base_filename h2) (backup_name 1 (current_date h2)) o3 in
  {| self := set_stream (Some EmptyString) h2; os := opened (baseFilename h2) o4 |}.

(** The name [__init__] gives the active file of a date. *)
Definition active_name (d : string) : string := "system_logs_" +:+ d +:+ ".txt".

(** ** The effects of the Redis commands of [log_to_redis] *)

(** The key of a source tag's stream. *)
Definition stream_key (source : string) : string := LOG_KEY +:+ "_" +:+ source.

(** The elements stored under a key, and its expiry time. *)
Definition stream_items (key : string) (r : redis) : list string :=
  match db r !! key with
  | Some e => items e
  | None => []
  end.

Definition stream_expiry (key : string) (r : redis) : option Z :=
  match db r !! key with
  | Some e => expire_at e
  | None => None
  end.

(** The same as the server answers at time [t], when an expired key counts
    as absent. *)
Definition live_items (t : Z) (key : string) (r : redis) : list string :=
  match fetch t key r with
  | Some e => items e
  | None => []
  end.

Definition live_expiry (t : Z) (key : string) (r : redis) : option Z :=
  match fetch t key r with
  | Some e => expire_at e
  | None => None
  end.

Definition last_1000 (l : list string) : list string :=
  drop (List.length l - 1000)%nat l.

(** [rpush] followed by [ltrim(key, -1000, -1)]. *)
Definition pushed (t : Z) (key message : string) (r : redis) : redis :=
  let e := default {| items := []; expire_at := None |} (fetch t key r) in
  store key
    (Some {| items := last_1000 (items e ++ [message])%list; expire_at := expire_at e |}) r.

(** The [ttl] test and the [expire] it guards. *)
Definition expiring (t : Z) (key : string) (r : redis) : redis :=
  match fetch t key r with
  | Some e =>
      match expire_at e with
      | None => store key (Some {| items := items e; expire_at := Some (t + 604800) |}) r
      | Some _ => r
      end
  | None => r
  end.

Section runs.
Context {B : Builtins}.

(** A run of [log_to_redis] calls for one source, each with the server time
    it happens at; a call that raises does not stop the later ones. *)
Fixpoint appends (source : string) (calls : list (Z * string)) (s : system) : system :=
  match calls with
  | [] => s
  | (t, m) :: rest => appends source rest (final (log_to_redis t m source s))
  end.

End runs.

(** Duplicates collapsed to the first occurrence, as the specification
    words it: an element stays where it first appears and its later copies
    are dropped. *)
Fixpoint first_occurrences (l : list string) : list string :=
  match l with
  | [] => []
  | x :: l' => x :: filter (λ y, y ≠ x) (first_occurrences l')
  end.

(** The handler can take a record: its stream is open and its active file
    is in place. *)
Definition handler_ready (o : os_state) (h : handler) : Prop :=
  is_Some (stream h) ∧ is_Some (file_at o (baseFilename h)).

(** ** Concrete states used in the examples *)

Definition day1 : timestamp :=
  {| date := "2024-01-01"; asctime := "2024-01-01 09:00:00,000" |}.
Definition day2 : timestamp :=
  {| date := "2024-01-02"; asctime := "2024-01-02 09:00:00,000" |}.

(** An empty working directory [/app] on the first day. *)
Definition ex_os : os_state :=
  {| cwd := ["app"]; files := ∅; clock := λ _, day1; tick := 0 |}.


Definition ex_record (msg : string) : LogRecord :=
  {| rec_asctime := "09:00"; rec_levelname := "INFO"; rec_message := msg |}.

(** A handler as the constructor leaves it on the first day. *)
Definition ex_handler (buffered : string) : handler :=
  {| current_date := "2024-01-01";
     base_filename := "system_logs_2024-01-01.txt";
     baseFilename := "/app/system_logs_2024-01-01.txt";
     maxBytes := 100; backupCount := 3; stream := Some buffered |}.

(** The handler with four bytes on disk and four more in its buffer. *)
Definition ex_buffered : hst :=
  {| self := ex_handler "tail";
     os := set_files (λ _, {[ "/app/system_logs_2024-01-01.txt" := "head" ]}) ex_os |}.

(** The handler after its active file was removed from the directory. *)
Definition ex_unlinked : hst := {| self := ex_handler EmptyString; os := ex_os |}.

(** The handler on the morning of the second day, with one record in the
    first day's file. *)
Definition ex_next_day : hst :=
  {| self := ex_handler EmptyString;
     os := {| cwd := ["app"];
              files := {[ "/app/system_logs_2024-01-01.txt" := "first" ]};
              clock := λ _, day2; tick := 7 |} |}.

(** The handler with a full set of three backups. *)
Definition ex_backups : hst :=
  {| self := ex_handler EmptyString;
     os := set_files (λ _,
             <[ "/app/system_logs_2024-01-01.txt" := "new" ]>
             (<[ "/app/system_logs_1_2024-01-01.txt" := "old1" ]>
             (<[ "/app/system_logs_2_2024-01-01.txt" := "old2" ]>
             {[ "/app/system_logs_3_2024-01-01.txt" := "old3" ]}))) ex_os |}.

(** The process right after the module was loaded, with an empty server. *)
Definition ex_system : system :=
  final (boot {| fault := None; db := ∅ |} ex_os).

Definition ex_booted_handler : handler :=
  {| current_date := "2024-01-01";
     base_filename := "system_logs_2024-01-01.txt";
     baseFilename := "/app/system_logs_2024-01-01.txt";
     maxBytes := 1048576; backupCount := 10; stream := Some EmptyString |}.

Definition ex_calls : list (Z * string) := [(10, "a"); (20, "b"); (30, "a")].

Definition ex_listener : gmap string string := {[ "type" := "listener" ]}.

Definition ex_form (max_size backups : string) : gmap string string :=
  <[ "maxBytes" := max_size ]> {[ "backupCount" := backups ]}.

(** ** The line logged for a message *)

(** The line the file handler writes for a message logged for a source. *)
Definition log_line {B : Builtins} (stamp : timestamp) (source message : string) : string :=
  asctime stamp +:+ " - INFO - [" +:+ str_upper source +:+ "] " +:+ message +:+ terminator.

(** ** The unguarded part of [emit] *)

(** Lines 71 and 72 of [emit]: the rollover check and the rotation that the
    override runs itself, before it hands the record to the inherited
    [emit] and outside of any [try]. *)
Definition rollover_check (record : LogRecord) : py hst unit :=
  r <- shouldRollover record ;;
  if r : bool then doRollover else ret tt.

(** ** More concrete states *)

(** The handler with backup 2 present and backup 1 missing. *)
Definition ex_gap : hst :=
  {| self := ex_handler EmptyString;
     os := set_files (λ _,
             <[ "/app/system_logs_2024-01-01.txt" := "new" ]>
             {[ "/app/system_logs_2_2024-01-01.txt" := "old2" ]}) ex_os |}.


(** A handler with a limit of four bytes on a file of five. *)
Definition ex_full : hst :=
  {| self := {| current_date := "2024-01-01";
                base_filename := "system_logs_2024-01-01.txt";
                baseFilename := "/app/system_logs_2024-01-01.txt";
                maxBytes := 4; backupCount := 3; stream := Some EmptyString |};
     os := set_files (λ _,
             <[ "/app/system_logs_2024-01-01.txt" := "12345" ]>
             {[ "/app/system_logs_1_2024-01-01.txt" := "old1" ]}) ex_os |}.

(** The started process with an unreachable server. *)
Definition ex_down : system :=
  set_redis {| fault := Some "Connection refused"; db := ∅ |} ex_system.

(** The started process with a full stream for the listener. *)
Definition ex_crowded : system :=
  set_redis
    {| fault := None;
       db := {[ "system_logs_listener" :=
                  {| items := replicate 1000 "old"; expire_at := None |} ]} |}
    ex_system.

Definition ex_processor : gmap string string := {[ "type" := "processor" ]}.

(** The started process after its log file was removed from the directory. *)
Definition ex_orphaned : system :=
  set_logger (logger_handlers ex_system) (set_files (λ _, ∅) (host ex_system)) ex_system.

(** * Properties of the rotating file handler *)

Local Open Scope list_scope.

Arguments abspath : simpl never.
Arguments file_at : simpl never.
Arguments set_files : simpl never.
Arguments advance : simpl never.

Lemma file_at_set_files f o p :
  file_at (set_files f o) p = f (files o) !! abspath o p.
Proof. reflexivity. Qed.

Lemma file_at_advance o p : file_at (advance o) p = file_at o p.
Proof. reflexivity. Qed.

Lemma prefix_slash (s : string) : String.prefix "/" ("/" +:+ s) = true.
Proof. by destruct s. Qed.

Lemma abspath_absolute o p : String.prefix "/" (abspath o p) = true.
Proof.
  unfold abspath. destruct (String.prefix "/" p) eqn:E; [done|].
  destruct (cwd o); apply prefix_slash.
Qed.

Lemma abspath_idemp o o' p : abspath o' (abspath o p) = abspath o p.
Proof. unfold abspath at 1. by rewrite abspath_absolute. Qed.

Lemma abspath_relative o p :
  String.prefix "/" p = false → abspath o p = cwd_string (cwd o) +:+ "/" +:+ p.
Proof. unfold abspath. by intros ->. Qed.

(** *** Strings: lengths and cancellation *)

Lemma string_app_cons a (s t : string) : String a s +:+ t = String a (s +:+ t).
Proof. reflexivity. Qed.

Lemma string_app_nil_r (s : string) : s +:+ EmptyString = s.
Proof. induction s as [|a s IH]; [done|]. by rewrite string_app_cons, IH. Qed.

Lemma string_length_app (s t : string) :
  String.length (s +:+ t) = (String.length s + String.length t)%nat.
Proof.
  induction s as [|a s IH]; [done|]. rewrite string_app_cons. cbn. by rewrite IH.
Qed.

Lemma string_app_inj_r (t s1 s2 : string) : s1 +:+ t = s2 +:+ t → s1 = s2.
Proof.
  revert s2. induction s1 as [|a s1 IH]; intros [|b s2] H; [done|..].
  - apply (f_equal String.length) in H.
    rewrite !string_length_app in H. cbn in H. lia.
  - apply (f_equal String.length) in H.
    rewrite !string_length_app in H. cbn in H. lia.
  - rewrite !string_app_cons in H. injection H as -> H. f_equal. by apply IH.
Qed.

Lemma backup_name_relative i d : String.prefix "/" (backup_name i d) = false.
Proof. reflexivity. Qed.

Lemma active_name_relative d : String.prefix "/" (active_name d) = false.
Proof. reflexivity. Qed.

Lemma backup_name_inj o i j d :
  abspath o (backup_name i d) = abspath o (backup_name j d) → i = j.
Proof.
  rewrite !abspath_relative by apply backup_name_relative.
  intros H. do 2 apply String.app_inj in H. unfold backup_name in H.
  apply String.app_inj in H. apply string_app_inj_r in H.
  by apply pretty_nat_inj in H.
Qed.

Lemma backup_name_not_active o i d :
  abspath o (backup_name i d) ≠ abspath o (active_name d).
Proof.
  rewrite abspath_relative by apply backup_name_relative.
  rewrite abspath_relative by apply active_name_relative.
  intros H. do 2 apply String.app_inj in H. unfold backup_name, active_name in H.
  apply String.app_inj in H. apply (f_equal String.length) in H.
  rewrite !string_length_app in H. cbn in H. lia.
Qed.

(** *** The monadic operations and their effects *)

Lemma stream_flush_open s buf :
  stream (self s) = Some buf →
  stream_flush s =
    Ret tt {| self := set_stream (Some EmptyString) (self s); os := flushed (self s) (os s) |}.
Proof. intros H. unfold stream_flush, flushed, bind, attr. rewrite H. reflexivity. Qed.

Lemma stream_flush_closed s :
  stream (self s) = None → stream_flush s = Raise AttributeError s.
Proof. intros H. unfold stream_flush, bind, attr. rewrite H. reflexivity. Qed.

Lemma file_at_flushed h o :
  file_at (flushed h o) (baseFilename h) =
  (λ c, c +:+ default EmptyString (stream h)) <$> file_at o (baseFilename h).
Proof.
  unfold flushed. destruct (stream h) as [buf|]; cbn.
  - by rewrite file_at_set_files, lookup_alter_eq.
  - destruct (file_at o (baseFilename h)) as [c|]; cbn; [|done].
    by rewrite string_app_nil_r.
Qed.

Lemma rename_renamed src dst o :
  is_Some (file_at o src) → rename src dst o = Ret tt (renamed src dst o).
Proof. intros [c Hc]. unfold rename, renamed. by rewrite Hc. Qed.

Lemma renamed_missing src dst o : file_at o src = None → renamed src dst o = o.
Proof. unfold renamed. by intros ->. Qed.

Lemma shift_backup_shifted d i o : shift_backup d i o = Ret tt (shifted d o i).
Proof.
  unfold shift_backup, shifted, bind, path_exists.
  destruct (file_at o (backup_name i d)) as [c|] eqn:E.
  - rewrite bool_decide_eq_true_2 by eauto. apply rename_renamed. eauto.
  - rewrite bool_decide_eq_false_2 by (by intros [? ?]).
    by rewrite renamed_missing.
Qed.

Lemma for_each_shifted d l o :
  for_each l (shift_backup d) o = Ret tt (foldl (shifted d) o l).
Proof.
  revert o. induction l as [|i l IH]; intros o; [done|].
  cbn. unfold bind. by rewrite shift_backup_shifted, IH.
Qed.

Lemma open_append_opened p o : open_append p o = Ret tt (opened p o).
Proof. unfold open_append, opened. by destruct (file_at o p). Qed.

Lemma set_stream_closed h : stream h = None → set_stream None h = h.
Proof. destruct h. cbn. by intros ->. Qed.

Lemma flushed_set_stream_closed h o : stream h = None → flushed h o = o.
Proof. unfold flushed. by intros ->. Qed.

Lemma bind_ret {S A B} (m : py S A) (k : A → py S B) s a s' :
  m s = Ret a s' → bind m k s = k a s'.
Proof. unfold bind. by intros ->. Qed.

Lemma on_os_ret {A} (m : py os_state A) s a o' :
  m (os s) = Ret a o' → on_os m s = Ret a {| self := self s; os := o' |}.
Proof. unfold on_os. by intros ->. Qed.

(** On the file system of the model, where each rename is guarded by its
    existence test and no open is refused, [doRollover] returns, and
    [rolled] is the state it leaves. *)
Lemma doRollover_rolled s : doRollover s = Ret tt (rolled s).
Proof.
  unfold doRollover, rolled.
  erewrite bind_ret by reflexivity.
  erewrite (bind_ret _ _ s tt {| self := set_stream None (self s); os := flushed (self s) (os s) |}).
  2:{ unfold attr. destruct (stream (self s)) as [buf|] eqn:Hs.
      - unfold stream_close. erewrite bind_ret by (apply (stream_flush_open _ _ Hs)).
        reflexivity.
      - rewrite set_stream_closed, flushed_set_stream_closed by done. by destruct s. }
  erewrite bind_ret by (by apply on_os_ret).
  erewrite bind_ret by reflexivity.
  cbn [self os id].
  erewrite (bind_ret _ _ _ tt {| self := rolled_date (date (clock (os s) (tick (os s)))) (set_stream None (self s)); os := advance (flushed (self s) (os s)) |}).
  2:{ unfold rolled_date. 
      replace (clock (flushed (self s) (os s)) (tick (flushed (self s) (os s)))) with (clock (os s) (tick (os s))).
      2:{ unfold flushed. by destruct (stream (self s)). }
      cbn [current_date set_stream]. by case_bool_decide. }
  erewrite bind_ret by reflexivity. cbn [self os id].
  erewrite bind_ret by (apply on_os_ret, for_each_shifted).
  cbn [self os].
  unfold path_exists at 1.
  erewrite bind_ret by (by apply on_os_ret).
  cbn [self os].
  set (h2 := rolled_date _ _). set (o3 := foldl _ _ _).
  erewrite (bind_ret _ _ _ tt {| self := h2; os := renamed (base_filename h2) (backup_name 1 (current_date h2)) o3 |}).
  2:{ case_bool_decide as E.
      - apply on_os_ret. by apply rename_renamed.
      - rewrite renamed_missing; [done|]. cbn [os]. by apply eq_None_not_Some. }
  unfold _open. 
  erewrite bind_ret.
  2:{ erewrite bind_ret by reflexivity. erewrite bind_ret by (apply on_os_ret, open_append_opened). reflexivity. }
  reflexivity.
Qed.

Lemma abspath_renamed src dst o p : abspath (renamed src dst o) p = abspath o p.
Proof. unfold renamed. by destruct (file_at o src). Qed.

Lemma file_at_renamed_dst src dst o c :
  file_at o src = Some c → file_at (renamed src dst o) dst = Some c.
Proof.
  intros H. unfold renamed. rewrite H, file_at_set_files. by rewrite lookup_insert_eq.
Qed.

Lemma file_at_renamed_other src dst o p :
  abspath o p ≠ abspath o src → abspath o p ≠ abspath o dst →
  file_at (renamed src dst o) p = file_at o p.
Proof.
  intros H1 H2. unfold renamed. destruct (file_at o src); [|done].
  rewrite file_at_set_files. by rewrite lookup_insert_ne, lookup_delete_ne.
Qed.

Lemma range_down_succ (m : nat) :
  range_down (Z.of_nat (S (S m))) = S m :: range_down (Z.of_nat (S m)).
Proof.
  unfold range_down.
  replace (Z.to_nat (Z.of_nat (S (S m)) - 1)) with (S m) by lia.
  replace (Z.to_nat (Z.of_nat (S m) - 1)) with m by lia.
  rewrite seq_S, rev_unit. done.
Qed.


Lemma range_down_nonpos (n : Z) : n ≤ 1 → range_down n = [].
Proof. intros H. unfold range_down. by replace (Z.to_nat (n - 1)) with 0%nat by lia. Qed.

Lemma abspath_flushed h o p : abspath (flushed h o) p = abspath o p.
Proof. unfold flushed. by destruct (stream h). Qed.

Lemma file_at_flushed_other h o p :
  abspath o p ≠ abspath o (baseFilename h) → file_at (flushed h o) p = file_at o p.
Proof.
  intros H. unfold flushed. destruct (stream h); [|done].
  rewrite file_at_set_files. by rewrite lookup_alter_ne.
Qed.

Lemma abspath_opened q o p : abspath (opened q o) p = abspath o p.
Proof. unfold opened. by destruct (file_at o q). Qed.

Lemma file_at_opened_other q o p :
  abspath o p ≠ abspath o q → file_at (opened q o) p = file_at o p.
Proof.
  intros H. unfold opened. destruct (file_at o q); [done|].
  rewrite file_at_set_files. by rewrite lookup_insert_ne.
Qed.

Lemma file_at_opened q o :
  file_at (opened q o) q = Some (default EmptyString (file_at o q)).
Proof.
  unfold opened. destruct (file_at o q) eqn:E; [done|].
  rewrite file_at_set_files. by rewrite lookup_insert_eq.
Qed.

Lemma file_at_renamed_src src dst o :
  abspath o src ≠ abspath o dst → file_at (renamed src dst o) src = None.
Proof.
  intros H. unfold renamed. destruct (file_at o src) eqn:E; [|done].
  rewrite file_at_set_files. by rewrite lookup_insert_ne, lookup_delete_eq.
Qed.

Lemma file_at_key o p q : abspath o p = abspath o q → file_at o p = file_at o q.
Proof. unfold file_at. by intros ->. Qed.

Lemma file_at_base o o' name :
  (∀ p, abspath o' p = abspath o p) →
  file_at o' (abspath o name) = file_at o' name.
Proof. intros H. apply file_at_key. by rewrite abspath_idemp, H. Qed.


Lemma getsize_flushed s buf c :
  stream (self s) = Some buf →
  file_at (os s) (baseFilename (self s)) = Some c →
  getsize (baseFilename (self s)) (flushed (self s) (os s)) =
    Ret (Z.of_nat (String.length (c +:+ buf))) (flushed (self s) (os s)).
Proof.
  intros Hs Hf. unfold getsize. by rewrite file_at_flushed, Hf, Hs.
Qed.

(** C7. With the stream open and the active file present, [shouldRollover]
    first flushes the buffered bytes into the file and then answers true
    exactly when the size of the file on disk has reached [maxBytes] or
    the date read from the clock differs from the recorded one. *)
Theorem shouldRollover_decision record s buf c :
  stream (self s) = Some buf →
  file_at (os s) (baseFilename (self s)) = Some c →
  ∃ b s',
    shouldRollover record s = Ret b s' ∧
    file_at (os s') (baseFilename (self s)) = Some (c +:+ buf) ∧
    stream (self s') = Some EmptyString ∧
    (b = true ↔
       maxBytes (self s) ≤ Z.of_nat (String.length (c +:+ buf))
       ∨ date (clock (os s) (tick (os s))) ≠ current_date (self s)).
Proof.
  intros Hs Hf.
  assert (Hfl : file_at (flushed (self s) (os s)) (baseFilename (self s)) = Some (c +:+ buf)).
  { by rewrite file_at_flushed, Hf, Hs. }
  assert (Hck : clock (flushed (self s) (os s)) (tick (flushed (self s) (os s)))
                = clock (os s) (tick (os s))).
  { unfold flushed. by rewrite Hs. }
  unfold shouldRollover.
  erewrite bind_ret by (apply (stream_flush_open _ _ Hs)).
  erewrite bind_ret by reflexivity. cbn [self os baseFilename set_stream].
  erewrite bind_ret by (apply on_os_ret, getsize_flushed; eassumption).
  erewrite bind_ret by reflexivity. cbn [self os maxBytes set_stream].
  case_bool_decide as Hsize.
  { eexists _, _. split; [reflexivity|]. cbn [self os stream set_stream]. intuition congruence. }
  erewrite bind_ret by (by apply on_os_ret).
  erewrite bind_ret by reflexivity. cbn [self os id current_date set_stream].
  rewrite Hck. case_bool_decide as Hdate.
  - erewrite bind_ret by reflexivity.
    eexists _, _. split; [reflexivity|]. cbn [self os stream set_stream set_date].
    rewrite file_at_advance. intuition congruence.
  - eexists _, _. split; [reflexivity|]. cbn [self os stream set_stream].
    rewrite file_at_advance. intuition congruence.
Qed.

(** *** When [emit] raises *)

Lemma shouldRollover_closed record s :
  stream (self s) = None → shouldRollover record s = Raise AttributeError s.
Proof.
  intros Hs. unfold shouldRollover, bind. by rewrite stream_flush_closed.
Qed.

Lemma shouldRollover_missing record s buf :
  stream (self s) = Some buf →
  file_at (os s) (baseFilename (self s)) = None →
  shouldRollover record s =
    Raise FileNotFoundError
      {| self := set_stream (Some EmptyString) (self s); os := flushed (self s) (os s) |}.
Proof.
  intros Hs Hf. unfold shouldRollover.
  erewrite bind_ret by (apply (stream_flush_open _ _ Hs)).
  erewrite bind_ret by reflexivity. cbn [self os baseFilename set_stream].
  unfold bind, on_os, getsize. cbn [self os].
  by rewrite file_at_flushed, Hf.
Qed.

(** The inherited [emit] absorbs whatever is raised inside it. *)
Lemma BaseRotatingHandler_emit_returns record s :
  ∃ s', BaseRotatingHandler_emit record s = Ret tt s'.
Proof.
  unfold BaseRotatingHandler_emit, try_except.
  match goal with |- context [match ?m with _ => _ end] => destruct m as [[] s'|e s'] end.
  - by eexists.
  - by eexists.
Qed.

Lemma emit_closed record s :
  stream (self s) = None → emit record s = Raise AttributeError s.
Proof. intros Hs. unfold emit, bind. by rewrite shouldRollover_closed. Qed.

Lemma emit_missing record s buf :
  stream (self s) = Some buf →
  file_at (os s) (baseFilename (self s)) = None →
  emit record s =
    Raise FileNotFoundError
      {| self := set_stream (Some EmptyString) (self s); os := flushed (self s) (os s) |}.
Proof.
  intros Hs Hf. unfold emit, bind. by rewrite (shouldRollover_missing _ _ buf).
Qed.

Lemma file_at_flushed_none h o p :
  file_at o p = None → file_at (flushed h o) p = None.
Proof.
  intros H. unfold flushed. destruct (stream h); [|done].
  rewrite file_at_set_files. by apply lookup_alter_None.
Qed.

Lemma emit_rollover_check record s :
  emit record s = (rollover_check record ;; BaseRotatingHandler_emit record) s.
Proof.
  unfold emit, rollover_check, bind.
  destruct (shouldRollover record s) as [r s1|e s1]; [|done].
  by destruct ((if r then doRollover else ret tt) s1).
Qed.

(** C2, as the code has it.  The inherited [emit] never raises: whatever
    is raised inside it is absorbed.  The rollover check and the rotation
    that the override runs itself come before it and outside of any [try]:
    whatever they raise, [emit] raises, in the state they left and with the
    record unwritten; when they return, [emit] returns.  With a closed
    stream that check raises [AttributeError] at the flush, and with the
    active file missing it raises [FileNotFoundError] at
    [os.path.getsize]. *)
Theorem emit_outcome record s :
  (∀ s0, ∃ s', BaseRotatingHandler_emit record s0 = Ret tt s') ∧
  (∀ e s', rollover_check record s = Raise e s' → emit record s = Raise e s') ∧
  (∀ s1, rollover_check record s = Ret tt s1 →
     ∃ s', BaseRotatingHandler_emit record s1 = Ret tt s' ∧ emit record s = Ret tt s') ∧
  (stream (self s) = None → emit record s = Raise AttributeError s) ∧
  (∀ buf, stream (self s) = Some buf →
     file_at (os s) (baseFilename (self s)) = None →
     ∃ s', emit record s = Raise FileNotFoundError s' ∧
           file_at (os s') (baseFilename (self s)) = None).
Proof.
  split; [intros s0; apply BaseRotatingHandler_emit_returns|].
  split; [|split; [|split]].
  - intros e s' H. rewrite emit_rollover_check. unfold bind. by rewrite H.
  - intros s1 H. destruct (BaseRotatingHandler_emit_returns record s1) as [s' Hs'].
    exists s'. split; [done|]. rewrite emit_rollover_check. unfold bind. by rewrite H.
  - apply emit_closed.
  - intros buf Hs Hf. eexists. split; [by apply (emit_missing _ _ buf)|].
    cbn [os]. by apply file_at_flushed_none.
Qed.

(** *** A write after the date has changed *)


Lemma clock_flushed h o : clock (flushed h o) = clock o.
Proof. unfold flushed. by destruct (stream h). Qed.

Lemma tick_flushed h o : tick (flushed h o) = tick o.
Proof. unfold flushed. by destruct (stream h). Qed.

Lemma tick_advance o : tick (advance o) = S (tick o).
Proof. reflexivity. Qed.

Lemma clock_advance o : clock (advance o) = clock o.
Proof. reflexivity. Qed.

Lemma abspath_advance o p : abspath (advance o) p = abspath o p.
Proof. reflexivity. Qed.



(** The result of [shouldRollover] and the state it leaves, for an open
    stream and a present file. *)
Lemma shouldRollover_eval record s buf c :
  stream (self s) = Some buf →
  file_at (os s) (baseFilename (self s)) = Some c →
  let h := set_stream (Some EmptyString) (self s) in
  let o := flushed (self s) (os s) in
  let d := date (clock (os s) (tick (os s))) in
  shouldRollover record s =
    if bool_decide (maxBytes (self s) ≤ Z.of_nat (String.length (c +:+ buf)))
    then Ret true {| self := h; os := o |}
    else if bool_decide (d ≠ current_date (self s))
         then Ret true {| self := set_date d (redate (self s) d) h; os := advance o |}
         else Ret false {| self := h; os := advance o |}.
Proof.
  intros Hs Hf h o d.
  assert (Hck : clock (flushed (self s) (os s)) (tick (flushed (self s) (os s)))
                = clock (os s) (tick (os s))).
  { unfold flushed. by rewrite Hs. }
  unfold shouldRollover.
  erewrite bind_ret by (apply (stream_flush_open _ _ Hs)).
  erewrite bind_ret by reflexivity. cbn [self os baseFilename set_stream].
  erewrite bind_ret by (apply on_os_ret, getsize_flushed; eassumption).
  erewrite bind_ret by reflexivity. cbn [self os maxBytes set_stream].
  case_bool_decide; [done|].
  erewrite bind_ret by (by apply on_os_ret).
  erewrite bind_ret by reflexivity. cbn [self os id current_date set_stream].
  rewrite Hck. fold d. case_bool_decide; [|done].
  erewrite bind_ret by reflexivity. done.
Qed.

Lemma StreamHandler_emit_eval record s buf :
  stream (self s) = Some buf →
  StreamHandler_emit record s =
    Ret tt {| self := set_stream (Some EmptyString) (self s);
              os := flushed (set_stream (Some (buf +:+ format record +:+ terminator)) (self s))
                      (os s) |}.
Proof.
  intros Hs. unfold StreamHandler_emit, try_except.
  erewrite bind_ret by reflexivity. cbn [self os]. rewrite Hs.
  erewrite bind_ret by reflexivity.
  erewrite stream_flush_open by reflexivity. reflexivity.
Qed.

Lemma FileHandler_emit_eval record s buf :
  stream (self s) = Some buf →
  FileHandler_emit record s =
    Ret tt {| self := set_stream (Some EmptyString) (self s);
              os := flushed (set_stream (Some (buf +:+ format record +:+ terminator)) (self s))
                      (os s) |}.
Proof.
  intros Hs. unfold FileHandler_emit.
  erewrite bind_ret by reflexivity. cbn [self os]. rewrite Hs.
  erewrite bind_ret by reflexivity.
  erewrite bind_ret by reflexivity. cbn [self os]. rewrite Hs.
  by apply StreamHandler_emit_eval.
Qed.

Lemma string_app_assoc (a b c : string) : (a +:+ b) +:+ c = a +:+ b +:+ c.
Proof. induction a as [|x a IH]; [done|]. by rewrite !string_app_cons, IH. Qed.


(** * Properties of the Redis buffer *)

Section buffer.
Context {B : Builtins}.

Lemma redis_range_last_1000 l : redis_range (-1000) (-1) l = last_1000 l.
Proof.
  unfold redis_range, last_1000. cbv zeta.
  repeat case_bool_decide; try lia.
  all: try (rewrite drop_ge by lia; done).
  all: rewrite take_ge by (rewrite length_drop; lia); f_equal; lia.
Qed.

Lemma redis_range_all l : redis_range 0 (-1) l = l.
Proof.
  unfold redis_range. cbv zeta.
  repeat case_bool_decide; try lia.
  all: try (by destruct l; [|cbn in *; lia]).
  all: rewrite take_ge by (rewrite length_drop; lia); done.
Qed.

Lemma last_1000_length l : (List.length (last_1000 l) ≤ 1000)%nat.
Proof. unfold last_1000. rewrite length_drop. lia. Qed.

Lemma last_1000_short l : (List.length l ≤ 1000)%nat → last_1000 l = l.
Proof. intros H. unfold last_1000. by replace (List.length l - 1000)%nat with 0%nat by lia. Qed.

Lemma last_1000_suffix l : last_1000 l `suffix_of` l.
Proof. apply suffix_drop. Qed.


Lemma last_1000_nonempty l m : last_1000 (l ++ [m]) ≠ [].
Proof.
  intros H. apply (f_equal List.length) in H. unfold last_1000 in H.
  rewrite length_drop, length_app in H. cbn in H. lia.
Qed.

Lemma command_ok {A} (f : redis → A * redis) r :
  fault r = None → command f r = Ret (f r).1 (f r).2.
Proof. intros H. unfold command. rewrite H. by destruct (f r). Qed.

Lemma command_fault {A} (f : redis → A * redis) r msg :
  fault r = Some msg → command f r = Raise (ConnectionError msg) r.
Proof. intros H. unfold command. by rewrite H. Qed.

Lemma fetch_store_eq t key e r :
  fetch t key (store key (Some e) r) = if alive t e then Some e else None.
Proof. unfold fetch, store. cbn. by rewrite lookup_insert_eq. Qed.


Lemma fetch_Some t key r e :
  fetch t key r = Some e → db r !! key = Some e ∧ alive t e = true.
Proof.
  unfold fetch. destruct (db r !! key) as [e'|]; [|done].
  destruct (alive t e') eqn:E; [|done]. by intros [= ->].
Qed.

Lemma alive_fetched t key r :
  alive t (default {| items := []; expire_at := None |} (fetch t key r)) = true.
Proof.
  destruct (fetch t key r) as [e|] eqn:E; [|done]. by apply fetch_Some in E as [_ ?].
Qed.

Lemma store_store key v w r : store key v (store key w r) = store key v r.
Proof.
  unfold store. cbn. f_equal.
  destruct v, w; by rewrite ?insert_insert_eq, ?insert_delete_eq, ?delete_insert_eq, ?delete_delete_eq.
Qed.

Lemma rpush_ret t key m r :
  fault r = None →
  let e := default {| items := []; expire_at := None |} (fetch t key r) in
  rpush t key m r =
    Ret (Z.of_nat (List.length (items e ++ [m])))
        (store key (Some {| items := (items e ++ [m])%list; expire_at := expire_at e |}) r).
Proof. intros Hf e. unfold rpush. by rewrite command_ok. Qed.

Lemma ltrim_pushed t key m r :
  fault r = None →
  let e := default {| items := []; expire_at := None |} (fetch t key r) in
  ltrim t key (-1000) (-1)
    (store key (Some {| items := (items e ++ [m])%list; expire_at := expire_at e |}) r) =
    Ret true (pushed t key m r).
Proof.
  intros Hf e. unfold ltrim. rewrite command_ok by done.
  rewrite fetch_store_eq.
  assert (alive t {| items := (items e ++ [m])%list; expire_at := expire_at e |} = true) as ->.
  { apply (alive_fetched t key r). }
  cbn [items expire_at]. rewrite redis_range_last_1000.
  destruct (last_1000 (items e ++ [m])) as [|x l] eqn:E.
  { by apply last_1000_nonempty in E. }
  cbn [fst snd]. unfold pushed. fold e. by rewrite E, store_store.
Qed.

Lemma ttl_ret t key r :
  fault r = None →
  ttl t key r =
    Ret (match fetch t key r with
         | None => -2
         | Some e => match expire_at e with None => -1 | Some x => x - t end
         end) r.
Proof. intros Hf. unfold ttl. rewrite command_ok by done. by destruct (fetch t key r). Qed.

Lemma ttl_unset t key r :
  (match fetch t key r with
   | None => -2
   | Some e => match expire_at e with None => -1 | Some x => x - t end
   end = -1) ↔ ∃ e, fetch t key r = Some e ∧ expire_at e = None.
Proof.
  destruct (fetch t key r) as [e|] eqn:E.
  - destruct (expire_at e) as [x|] eqn:Ex.
    + apply fetch_Some in E as [_ Ha]. unfold alive in Ha. rewrite Ex in Ha.
      apply bool_decide_eq_true in Ha. split; [lia|]. intros (? & [= <-] & ?); congruence.
    + split; [eauto|done].
  - split; [lia|]. by intros (? & ? & ?).
Qed.

Lemma expire_unset t key r e :
  fault r = None → fetch t key r = Some e → expire_at e = None →
  expire t key (7 * 24 * 60 * 60) r = Ret true (expiring t key r).
Proof.
  intros Hf E Ex. unfold expire, expiring. rewrite command_ok by done.
  by rewrite E, Ex.
Qed.

Lemma expiring_set t key r :
  ¬ (∃ e, fetch t key r = Some e ∧ expire_at e = None) → expiring t key r = r.
Proof.
  intros H. unfold expiring. destruct (fetch t key r) as [e|]; [|done].
  destruct (expire_at e) eqn:Ex; [done|]. destruct H. eauto.
Qed.

(** *** The logger leaves the Redis client and the globals alone *)

Lemma on_redis_ret {A} (m : py redis A) s a r :
  m (redis_client s) = Ret a r → on_redis m s = Ret a (set_redis r s).
Proof. unfold on_redis. by intros ->. Qed.

Lemma callHandlers_frame record todo seen s :
  let s' := final (callHandlers record seen todo s) in
  redis_client s' = redis_client s ∧
  local_max_bytes s' = local_max_bytes s ∧
  local_backup_count s' = local_backup_count s.
Proof.
  revert seen s. induction todo as [|h rest IH]; intros seen s; [done|].
  cbn [callHandlers].
  destruct (emit record {| self := h; os := host s |}) as [[] s1|e s1]; cbn [final]; [|done].
  specialize (IH (seen ++ [self s1])%list (set_logger (seen ++ self s1 :: rest) (os s1) s)).
  apply IH.
Qed.

Lemma logger_info_frame msg s :
  let s' := final (logger_info msg s) in
  redis_client s' = redis_client s ∧
  local_max_bytes s' = local_max_bytes s ∧
  local_backup_count s' = local_backup_count s.
Proof.
  unfold logger_info. unfold bind at 1. unfold on_host, now.
  unfold bind, get.
  exact (callHandlers_frame _ _ [] (set_logger (logger_handlers s) (advance (host s)) s)).
Qed.

Lemma log_to_redis_outcome t m source s :
  fault (redis_client s) = None →
  match log_to_redis t m source s with
  | Ret _ s' =>
      redis_client s' =
      expiring t (stream_key source) (pushed t (stream_key source) m (redis_client s))
  | Raise _ s' => redis_client s' = pushed t (stream_key source) m (redis_client s)
  end.
Proof.
  intros Hf. unfold log_to_redis. fold (stream_key source).
  erewrite bind_ret by (by apply on_redis_ret, rpush_ret).
  erewrite bind_ret by (by apply on_redis_ret, ltrim_pushed).
  set (r1 := pushed _ _ _ _). set (s1 := set_redis r1 _).
  pose proof (logger_info_frame ("[" +:+ str_upper source +:+ "] " +:+ m) s1) as (Hr & _).
  unfold bind at 1.
  destruct (logger_info _ s1) as [[] s2|e s2]; cbn [final] in Hr; [|done].
  assert (Hf2 : fault (redis_client s2) = None) by (by rewrite Hr).
  erewrite bind_ret by (by apply on_redis_ret, ttl_ret).
  case_bool_decide as Httl.
  - apply ttl_unset in Httl as (e & E & Ex).
    erewrite bind_ret by (eapply on_redis_ret, expire_unset; eauto).
    cbn. by rewrite Hr.
  - cbn. rewrite Hr. rewrite Hr in Httl. symmetry. apply expiring_set.
    intros H. by apply Httl, ttl_unset.
Qed.

Lemma log_to_redis_fault t m source s msg :
  fault (redis_client s) = Some msg →
  log_to_redis t m source s = Raise (ConnectionError msg) s.
Proof.
  intros Hf. unfold log_to_redis, bind, on_redis, rpush.
  rewrite (command_fault _ _ msg) by done. by destruct s.
Qed.

(** *** [dict.fromkeys] keeps first occurrences *)

Lemma first_occurrences_filter (P : string → Prop) `{!∀ x, Decision (P x)} l :
  first_occurrences (filter P l) = filter P (first_occurrences l).
Proof.
  induction l as [|x l IH]; [done|]. cbn [first_occurrences].
  destruct (decide (P x)) as [Hx|Hx].
  - rewrite !filter_cons_True by done. cbn [first_occurrences]. rewrite IH.
    f_equal. rewrite !list_filter_filter. apply list_filter_iff. tauto.
  - rewrite !filter_cons_False by done. rewrite IH.
    rewrite list_filter_filter. apply list_filter_iff. intros y. split; [|tauto].
    intros Hy. split; [done|]. by intros ->.
Qed.

Lemma dict_fromkeys_from (l acc : list string) :
  fold_left dict_insert l acc =
  (acc ++ first_occurrences (filter (λ y, y ∉ acc) l))%list.
Proof.
  revert acc. induction l as [|x l IH]; intros acc.
  { cbn. by rewrite app_nil_r. }
  cbn [fold_left]. rewrite IH. unfold dict_insert. case_bool_decide as Hx.
  - by rewrite filter_cons_False by tauto.
  - rewrite filter_cons_True by done. cbn [first_occurrences].
    rewrite <- app_assoc. cbn [app]. do 2 f_equal.
    rewrite <- first_occurrences_filter, list_filter_filter.
    f_equal. apply list_filter_iff. intros y.
    rewrite not_elem_of_app, list_elem_of_singleton. tauto.
Qed.

Lemma dict_fromkeys_first_occurrences l : dict_fromkeys l = first_occurrences l.
Proof.
  unfold dict_fromkeys. rewrite dict_fromkeys_from. cbn [app]. f_equal.
  induction l as [|x l IH]; [done|].
  rewrite filter_cons_True by apply not_elem_of_nil. by rewrite IH.
Qed.

Lemma first_occurrences_elem l x : x ∈ first_occurrences l ↔ x ∈ l.
Proof.
  induction l as [|y l IH]; [done|]. cbn [first_occurrences].
  rewrite !elem_of_cons, list_elem_of_filter, IH.
  destruct (decide (x = y)); tauto.
Qed.

Lemma first_occurrences_NoDup l : NoDup (first_occurrences l).
Proof.
  induction l as [|y l IH]; [constructor|]. cbn [first_occurrences].
  constructor; [|by apply NoDup_filter].
  rewrite list_elem_of_filter. tauto.
Qed.

Lemma first_occurrences_length l :
  (List.length (first_occurrences l) ≤ List.length l)%nat.
Proof.
  induction l as [|y l IH]; [done|]. cbn [first_occurrences List.length].
  pose proof (length_filter (λ z, z ≠ y) (first_occurrences l)). lia.
Qed.

(** *** One call of [log_to_redis] *)

Lemma stream_items_store key e r : stream_items key (store key (Some e) r) = items e.
Proof. unfold stream_items, store. cbn. by rewrite lookup_insert_eq. Qed.

Lemma stream_expiry_store key e r :
  stream_expiry key (store key (Some e) r) = expire_at e.
Proof. unfold stream_expiry, store. cbn. by rewrite lookup_insert_eq. Qed.

Lemma stream_items_pushed t key m r :
  stream_items key (pushed t key m r) = last_1000 (live_items t key r ++ [m]).
Proof.
  unfold pushed, live_items. rewrite stream_items_store. cbn [items].
  by destruct (fetch t key r).
Qed.

Lemma stream_expiry_pushed t key m r :
  stream_expiry key (pushed t key m r) = live_expiry t key r.
Proof.
  unfold pushed, live_expiry. rewrite stream_expiry_store. cbn [expire_at].
  by destruct (fetch t key r).
Qed.


Lemma live_pushed t key m r :
  fetch t key (pushed t key m r) = db (pushed t key m r) !! key.
Proof.
  unfold pushed. rewrite fetch_store_eq. unfold store. cbn [db].
  rewrite lookup_insert_eq.
  assert (alive t {| items := last_1000 (items (default {| items := []; expire_at := None |}
             (fetch t key r)) ++ [m]);
           expire_at := expire_at (default {| items := []; expire_at := None |}
             (fetch t key r)) |} = true) as ->; [|done].
  apply (alive_fetched t key r).
Qed.

Lemma stream_items_expiring t key r :
  stream_items key (expiring t key r) = stream_items key r.
Proof.
  unfold expiring. destruct (fetch t key r) as [e|] eqn:E; [|done].
  destruct (expire_at e); [done|]. rewrite stream_items_store. cbn.
  apply fetch_Some in E as [E _]. unfold stream_items. by rewrite E.
Qed.

Lemma stream_expiry_expiring t key r :
  fetch t key r = db r !! key →
  stream_expiry key (expiring t key r) =
  match db r !! key with
  | Some e => Some (default (t + 604800) (expire_at e))
  | None => None
  end.
Proof.
  intros Hl. unfold expiring, stream_expiry. rewrite Hl.
  destruct (db r !! key) as [e|] eqn:E; [|by rewrite E].
  destruct (expire_at e) as [x|] eqn:Ex; [by rewrite E, Ex|].
  unfold store. cbn. by rewrite lookup_insert_eq.
Qed.

Lemma fault_pushed t key m r : fault (pushed t key m r) = fault r.
Proof. reflexivity. Qed.

Lemma fault_expiring t key r : fault (expiring t key r) = fault r.
Proof.
  unfold expiring. destruct (fetch t key r) as [e|]; [|done]. by destruct (expire_at e).
Qed.

(** What one call leaves under the key, whether or not the file logging in
    its middle raised. *)
Lemma log_to_redis_stream t m source s :
  fault (redis_client s) = None →
  let key := stream_key source in
  let r := redis_client s in
  let r' := redis_client (final (log_to_redis t m source s)) in
  fault r' = None ∧
  stream_items key r' = last_1000 (live_items t key r ++ [m]) ∧
  (stream_expiry key r' = live_expiry t key r ∨
   stream_expiry key r' = Some (default (t + 604800) (live_expiry t key r))) ∧
  (∀ s', log_to_redis t m source s = Ret tt s' →
     stream_expiry key r' = Some (default (t + 604800) (live_expiry t key r))).
Proof.
  intros Hf key r r'.
  pose proof (log_to_redis_outcome t m source s Hf) as H. fold key r in H.
  assert (He : stream_expiry key (expiring t key (pushed t key m r)) =
               Some (default (t + 604800) (live_expiry t key r))).
  { rewrite stream_expiry_expiring by apply live_pushed.
    pose proof (stream_expiry_pushed t key m r) as Hp. unfold stream_expiry in Hp.
    unfold pushed, store in *. cbn [db] in *. rewrite lookup_insert_eq in *.
    by rewrite Hp. }
  unfold r'. destruct (log_to_redis t m source s) as [[] s'|e s']; cbn [final]; rewrite H.
  - rewrite fault_expiring, fault_pushed, stream_items_expiring, stream_items_pushed.
    split; [done|]. split; [done|]. split; [by right|]. by intros _ _.
  - rewrite fault_pushed, stream_items_pushed, stream_expiry_pushed.
    split; [done|]. split; [done|]. split; [by left|]. by intros ? [=].
Qed.

Lemma log_to_redis_keeps_expiry t m source s x :
  stream_expiry (stream_key source) (redis_client s) = Some x →
  t < x →
  stream_expiry (stream_key source) (redis_client (final (log_to_redis t m source s))) = Some x.
Proof.
  intros Hx Ht. destruct (fault (redis_client s)) as [msg|] eqn:Hf.
  { by rewrite (log_to_redis_fault _ _ _ _ msg). }
  assert (Hl : live_expiry t (stream_key source) (redis_client s) = Some x).
  { unfold stream_expiry in Hx. unfold live_expiry, fetch.
    destruct (db (redis_client s) !! stream_key source) as [e|]; [|done].
    unfold alive. rewrite Hx. by rewrite bool_decide_eq_true_2. }
  destruct (log_to_redis_stream t m source s Hf) as (_ & _ & [H|H] & _);
    rewrite H, Hl; done.
Qed.

Lemma last_1000_app a b : last_1000 (last_1000 a ++ b) = last_1000 (a ++ b).
Proof.
  unfold last_1000. rewrite !drop_app, !length_app, !length_drop, drop_drop.
  destruct (decide (List.length a ≤ 1000)%nat); f_equal; f_equal; lia.
Qed.

Lemma live_items_suffix t key r : live_items t key r `suffix_of` stream_items key r.
Proof.
  unfold live_items, stream_items, fetch.
  destruct (db r !! key) as [e|]; [|done].
  destruct (alive t e); [done|apply suffix_nil].
Qed.

Lemma live_alive t key r :
  (∀ x, stream_expiry key r = Some x → t < x) →
  live_items t key r = stream_items key r ∧ live_expiry t key r = stream_expiry key r.
Proof.
  unfold live_items, live_expiry, stream_items, stream_expiry, fetch. intros H.
  destruct (db r !! key) as [e|]; [|done].
  assert (alive t e = true) as ->; [|done].
  unfold alive. destruct (expire_at e) as [x|]; [|done].
  apply bool_decide_eq_true_2. by apply H.
Qed.

(** *** A run of calls *)

Lemma appends_stream source T calls s :
  fault (redis_client s) = None →
  let key := stream_key source in
  let r := redis_client s in
  let r' := redis_client (appends source calls s) in
  fault r' = None ∧
  stream_items key r' `suffix_of` (stream_items key r ++ calls.*2) ∧
  ((List.length (stream_items key r) ≤ 1000)%nat →
   (List.length (stream_items key r') ≤ 1000)%nat) ∧
  ((List.length (stream_items key r) ≤ 1000)%nat →
   (∀ x, stream_expiry key r = Some x → T < x) →
   Forall (λ c : Z * string, c.1 ≤ T < c.1 + 604800) calls →
   (∀ x, stream_expiry key r' = Some x → T < x) ∧
   stream_items key r' = last_1000 (stream_items key r ++ calls.*2)).
Proof.
  revert s. induction calls as [|[t m] rest IH]; intros s Hf key r r'.
  { unfold r'. cbn [appends fmap list_fmap]. rewrite app_nil_r.
    split; [done|]. split; [done|]. split; [done|].
    intros Hlen HJ _. split; [done|]. by rewrite last_1000_short. }
  cbn [appends] in r'.
  destruct (log_to_redis_stream t m source s Hf) as (Hf1 & Hi1 & He1 & _).
  fold key r in Hi1, He1.
  set (s1 := final (log_to_redis t m source s)) in *.
  destruct (IH s1 Hf1) as (Hf' & Hsuf & Hlen & Hexact). fold key r' in Hf', Hsuf, Hlen, Hexact.
  assert (Hl1 : (List.length (stream_items key (redis_client s1)) ≤ 1000)%nat).
  { rewrite Hi1. apply last_1000_length. }
  split; [done|]. split; [|split; [by auto|]].
  - etrans; [exact Hsuf|]. rewrite fmap_cons. cbn [snd].
    rewrite cons_middle, app_assoc. apply suffix_app. rewrite Hi1.
    etrans; [apply last_1000_suffix|]. apply suffix_app, live_items_suffix.
  - intros _ HJ Hw. apply Forall_cons in Hw as [Ht Hw]. cbn [fst] in Ht.
    destruct (live_alive t key r) as [Hli Hle].
    { intros x Hx. specialize (HJ x Hx). lia. }
    destruct Hexact as [HJ' Hex]; [done| |done|].
    { intros x Hx. destruct He1 as [He1|He1]; rewrite He1, Hle in Hx.
      - by apply HJ.
      - destruct (stream_expiry key r) as [y|] eqn:Ey; cbn in Hx.
        + injection Hx as <-. by apply HJ.
        + injection Hx as <-. lia. }
    split; [done|]. rewrite Hex, Hi1, Hli, last_1000_app.
    rewrite fmap_cons. cbn [snd]. by rewrite <- app_assoc.
Qed.

(** *** The facade over the buffer *)

Lemma set_redis_same s : set_redis (redis_client s) s = s.
Proof. by destruct s. Qed.

Lemma get_logs_ok t args s :
  fault (redis_client s) = None →
  get_logs t args s =
    Ret (jsonify (LogsBody true
           (dict_fromkeys
              (live_items t (stream_key (default "listener" (args !! "type")))
                 (redis_client s))))) s.
Proof.
  intros Hf. unfold get_logs, try_except.
  fold (stream_key (default "listener" (args !! "type"))).
  set (key := stream_key _).
  assert (lrange t key 0 (-1) (redis_client s) =
          Ret (live_items t key (redis_client s)) (redis_client s)) as Hl.
  { unfold lrange, live_items. rewrite command_ok by done.
    destruct (fetch t key (redis_client s)); cbn [fst snd]; [|done].
    by rewrite redis_range_all. }
  erewrite bind_ret by (apply on_redis_ret, Hl). by rewrite set_redis_same.
Qed.

Lemma appends_keep_expiry source x calls s :
  stream_expiry (stream_key source) (redis_client s) = Some x →
  Forall (λ c : Z * string, c.1 < x) calls →
  stream_expiry (stream_key source) (redis_client (appends source calls s)) = Some x.
Proof.
  revert s. induction calls as [|[t m] rest IH]; intros s Hx Hc; [done|].
  apply Forall_cons in Hc as [Ht Hc]. cbn [appends]. apply IH; [|done].
  by apply log_to_redis_keeps_expiry.
Qed.

(** C4, as the code has it.  The call is made on a reachable server, on a
    stream that has no expiry at that time (a missing or expired key, or one
    stored without expiry).  The message is pushed in any case, but the
    file logging comes before the TTL step.  When the call returns, the key
    expires exactly seven days after the call, and every later call made
    before that moment, returning or not, leaves the expiry time as it is.
    When the call raises, which on a reachable server only the file logging
    can cause, the stream holds the message and still has no expiry. *)
Theorem ttl_set_once t m source s :
  fault (redis_client s) = None →
  live_expiry t (stream_key source) (redis_client s) = None →
  match log_to_redis t m source s with
  | Ret _ s1 =>
      stream_expiry (stream_key source) (redis_client s1) = Some (t + 7 * 24 * 60 * 60) ∧
      ∀ calls,
        Forall (λ c : Z * string, c.1 < t + 7 * 24 * 60 * 60) calls →
        stream_expiry (stream_key source) (redis_client (appends source calls s1))
        = Some (t + 7 * 24 * 60 * 60)
  | Raise _ s1 =>
      stream_items (stream_key source) (redis_client s1)
        = last_1000 (live_items t (stream_key source) (redis_client s) ++ [m]) ∧
      stream_expiry (stream_key source) (redis_client s1) = None
  end.
Proof.
  intros Hf Hl.
  destruct (log_to_redis_stream t m source s Hf) as (_ & Hi & _ & He).
  pose proof (log_to_redis_outcome t m source s Hf) as Ho.
  destruct (log_to_redis t m source s) as [[] s1|e s1]; cbn [final] in *.
  - specialize (He s1 eq_refl). rewrite Hl in He. cbn in He.
    split; [done|]. intros calls Hc. by apply appends_keep_expiry.
  - split; [done|]. by rewrite Ho, stream_expiry_pushed.
Qed.

(** C3. After any run of [log_to_redis] calls for a source, on a stream
    that held at most 1000 entries before, [get_logs] answers with the first
    occurrences of a list [l] that is a suffix of everything appended and has
    at most 1000 entries: the answer has no duplicates, holds the same
    messages as [l] and at most 1000 of them.  When no expiry fell between
    the calls and the read, [l] is exactly the last 1000 entries appended. *)
Theorem get_logs_after_appends source calls t args s :
  fault (redis_client s) = None →
  args !! "type" = Some source →
  (List.length (stream_items (stream_key source) (redis_client s)) ≤ 1000)%nat →
  let all := stream_items (stream_key source) (redis_client s) ++ calls.*2 in
  ∃ l s',
    get_logs t args (appends source calls s)
      = Ret (jsonify (LogsBody true (first_occurrences l))) s' ∧
    l `suffix_of` all ∧
    (List.length l ≤ 1000)%nat ∧
    (List.length (first_occurrences l) ≤ 1000)%nat ∧
    NoDup (first_occurrences l) ∧
    (∀ x, x ∈ first_occurrences l ↔ x ∈ l) ∧
    ((∀ x, stream_expiry (stream_key source) (redis_client s) = Some x → t < x) →
     Forall (λ c : Z * string, c.1 ≤ t < c.1 + 604800) calls →
     l = last_1000 all).
Proof.
  intros Hf Ha Hlen all.
  destruct (appends_stream source t calls s Hf) as (Hf' & Hsuf & Hl & Hex).
  specialize (Hl Hlen).
  set (s' := appends source calls s) in *.
  exists (live_items t (stream_key source) (redis_client s')), s'.
  rewrite get_logs_ok, Ha, dict_fromkeys_first_occurrences by done.
  cbn [default from_option id].
  pose proof (live_items_suffix t (stream_key source) (redis_client s')) as Hlive.
  pose proof (suffix_length _ _ Hlive) as Hll.
  pose proof (first_occurrences_length (live_items t (stream_key source) (redis_client s'))).
  split; [done|]. split; [by etrans|]. split; [lia|]. split; [lia|].
  split; [apply first_occurrences_NoDup|]. split; [apply first_occurrences_elem|].
  intros HJ Hw. destruct (Hex Hlen HJ Hw) as [HJ' Hi].
  destruct (live_alive t (stream_key source) (redis_client s') HJ') as [-> _]. done.
Qed.

(** C5. With the server reachable, clearing a source and then appending [m]
    leaves a stream that reads back as [[m]], at any read time before the
    new key can expire. *)
Theorem clear_then_append source m t_append t_read form args s :
  fault (redis_client s) = None →
  form !! "type" = Some source →
  args !! "type" = Some source →
  t_read < t_append + 7 * 24 * 60 * 60 →
  ∃ s1 s2,
    clear_logs form s
      = Ret (jsonify (MessageBody true (str_capitalize source +:+ " logs cleared successfully"))) s1 ∧
    get_logs t_read args (final (log_to_redis t_append m source s1))
      = Ret (jsonify (LogsBody true [m])) s2.
Proof.
  intros Hf Hform Hargs Ht.
  assert (Hc : clear_logs form s =
    Ret (jsonify (MessageBody true (str_capitalize source +:+ " logs cleared successfully")))
        (set_redis (store (stream_key source) None (redis_client s)) s)).
  { unfold clear_logs, try_except. rewrite Hform. cbn [default from_option id].
    erewrite bind_ret; [reflexivity|].
    apply on_redis_ret. unfold redis_delete. by rewrite command_ok. }
  set (s1 := set_redis _ s) in Hc.
  assert (Hf1 : fault (redis_client s1) = None) by done.
  assert (Hgone : fetch t_append (stream_key source) (redis_client s1) = None).
  { unfold fetch, s1, store. cbn. by rewrite lookup_delete_eq. }
  destruct (log_to_redis_stream t_append m source s1 Hf1) as (Hf2 & Hi & He & _).
  unfold live_items, live_expiry in Hi, He. rewrite Hgone in Hi, He. cbn in Hi, He.
  set (s2 := final (log_to_redis t_append m source s1)) in *.
  exists s1, s2. split; [done|]. fold s2.
  rewrite get_logs_ok, Hargs by done. cbn [default from_option id].
  destruct (live_alive t_read (stream_key source) (redis_client s2)) as [-> _].
  { intros x Hx. destruct He as [He|He]; rewrite He in Hx; [done|]. injection Hx as <-. lia. }
  rewrite Hi. reflexivity.
Qed.

(** C9. Without a [type] argument [get_logs] and [clear_logs] behave as
    with [type=listener]: the read answers from the key
    [system_logs_listener] and the clear deletes that key. *)
Theorem default_source_is_listener t args form s :
  args !! "type" = None →
  form !! "type" = None →
  fault (redis_client s) = None →
  get_logs t args s = get_logs t (<["type" := "listener"]> args) s ∧
  clear_logs form s = clear_logs (<["type" := "listener"]> form) s ∧
  get_logs t args s
    = Ret (jsonify (LogsBody true
             (dict_fromkeys (live_items t "system_logs_listener" (redis_client s))))) s ∧
  ∃ s',
    clear_logs form s
      = Ret (jsonify (MessageBody true "Listener logs cleared successfully")) s' ∧
    db (redis_client s') = delete "system_logs_listener" (db (redis_client s)).
Proof.
  intros Ha Hform Hf.
  split; [|split; [|split]].
  - unfold get_logs. by rewrite Ha, lookup_insert_eq.
  - unfold clear_logs. by rewrite Hform, lookup_insert_eq.
  - rewrite get_logs_ok, Ha by done. reflexivity.
  - unfold clear_logs, try_except. rewrite Hform. cbn [default from_option id].
    rewrite str_capitalize_ascii by reflexivity.
    eexists. erewrite bind_ret.
    2:{ apply on_redis_ret. unfold redis_delete. by rewrite command_ok. }
    split; reflexivity.
Qed.

End buffer.

(** * Properties of the logging configuration *)

Section config.
Context {B : Builtins}.

Lemma init_name d :
  str_replace "system_logs.txt" ".txt" ("_" +:+ d +:+ ".txt") = active_name d.
Proof.
  unfold str_replace, active_name. cbn. rewrite string_app_nil_r. reflexivity.
Qed.

(** The handler the constructor builds, and the state it leaves. *)
Lemma __init___ret max_bytes backup_count o :
  let d := date (clock o (tick o)) in
  __init__ "system_logs.txt" max_bytes backup_count o =
    Ret {| current_date := d; base_filename := active_name d;
           baseFilename := abspath o (active_name d);
           maxBytes := max_bytes; backupCount := backup_count;
           stream := Some EmptyString |}
        (opened (abspath o (active_name d)) (advance o)).
Proof.
  intros d. unfold __init__.
  erewrite bind_ret by reflexivity. erewrite bind_ret by reflexivity.
  rewrite init_name. fold d.
  erewrite bind_ret by apply open_append_opened. reflexivity.
Qed.

Lemma configure_logging_ret max_bytes backup_count s :
  ∃ s' h,
    configure_logging max_bytes backup_count s = Ret tt s' ∧
    local_max_bytes s' = max_bytes ∧
    local_backup_count s' = backup_count ∧
    redis_client s' = redis_client s ∧
    logger_handlers s' = [h] ∧
    handler_ready (host s') h ∧
    maxBytes h = max_bytes ∧ backupCount h = backup_count.
Proof.
  unfold configure_logging.
  erewrite bind_ret by reflexivity. erewrite bind_ret by reflexivity.
  unfold bind at 1. unfold on_host. cbn [host set_logger set_config].
  rewrite __init___ret. unfold modify.
  eexists _, _. split; [reflexivity|]. cbn.
  repeat split; try done.
  cbn [baseFilename]. rewrite file_at_opened. by eexists.
Qed.



End config.

(** * The claims at concrete inputs *)

(** The runs below use the builtins on ASCII text. *)
#[local] Existing Instance ascii_builtins.


(** C2, the claim as stated fails: with the stream open and the active
    file gone from the directory, [emit] raises to its caller. *)
Lemma emit_raises_when_file_missing :
  emit (ex_record "lost") ex_unlinked = Raise FileNotFoundError ex_unlinked.
Proof. vm_compute. reflexivity. Qed.

(** C7 on a handler with 4 bytes on disk and 4 buffered, below the limit of
    100 and on the recorded date. *)
Lemma shouldRollover_decision_witness :
  ∃ b s',
    shouldRollover (ex_record "x") ex_buffered = Ret b s' ∧
    file_at (os s') "/app/system_logs_2024-01-01.txt" = Some "headtail" ∧
    stream (self s') = Some EmptyString ∧
    (b = true ↔ 100 ≤ 8 ∨ "2024-01-01" ≠ "2024-01-01").
Proof.
  apply (shouldRollover_decision (ex_record "x") ex_buffered "tail" "head").
  - reflexivity.
  - vm_compute. reflexivity.
Defined.


(** C3 on three calls, the third repeating the first message. *)
Lemma get_logs_after_appends_witness :
  ∃ l s',
    get_logs 40 ex_listener (appends "listener" ex_calls ex_system)
      = Ret (jsonify (LogsBody true (first_occurrences l))) s' ∧
    l = ["a"; "b"; "a"] ∧
    first_occurrences l = ["a"; "b"].
Proof.
  destruct (get_logs_after_appends "listener" ex_calls 40 ex_listener ex_system)
    as (l & s' & Hg & _ & _ & _ & _ & _ & Hex).
  - vm_compute. reflexivity.
  - vm_compute. reflexivity.
  - vm_compute. lia.
  - assert (l = ["a"; "b"; "a"]) as Hl.
    { rewrite Hex; [vm_compute; reflexivity| |].
      - intros x Hx. vm_compute in Hx. discriminate.
      - repeat constructor; cbn; lia. }
    exists l, s'. split; [exact Hg|]. split; [exact Hl|].
    rewrite Hl. vm_compute. reflexivity.
Defined.

(** C4, the claim as stated fails.  The process has started and its log
    file was then removed from the directory.  The first call for the
    listener pushes the message, the file logging raises
    [FileNotFoundError] at the size check, and the call ends before the TTL
    step: the stream holds the message, readable by [get_logs], and has no
    expiry. *)
Lemma append_without_ttl :
  fault (redis_client ex_orphaned) = None ∧
  live_expiry 10 "system_logs_listener" (redis_client ex_orphaned) = None ∧
  ∃ s1,
    log_to_redis 10 "a" "listener" ex_orphaned = Raise FileNotFoundError s1 ∧
    stream_items "system_logs_listener" (redis_client s1) = ["a"] ∧
    stream_expiry "system_logs_listener" (redis_client s1) = None ∧
    get_logs 11 ex_listener s1 = Ret (jsonify (LogsBody true ["a"])) s1.
Proof.
  split; [vm_compute; reflexivity|]. split; [vm_compute; reflexivity|].
  eexists. split; [vm_compute; reflexivity|].
  repeat split; vm_compute; reflexivity.
Qed.

(** C4, amended, on the freshly started process: the first call at time 10
    returns and sets the expiry to [604810], and a call at time 500000
    leaves it there. *)
Lemma ttl_set_once_witness :
  ∃ s1,
    log_to_redis 10 "a" "listener" ex_system = Ret tt s1 ∧
    stream_expiry "system_logs_listener" (redis_client s1) = Some 604810 ∧
    stream_expiry "system_logs_listener"
      (redis_client (appends "listener" [(500000, "b")] s1)) = Some 604810.
Proof.
  pose proof (ttl_set_once 10 "a" "listener" ex_system) as H.
  assert (E : log_to_redis 10 "a" "listener" ex_system
              = Ret tt (final (log_to_redis 10 "a" "listener" ex_system))).
  { vm_compute. reflexivity. }
  rewrite E in H. destruct H as [He Hlater].
  - vm_compute. reflexivity.
  - vm_compute. reflexivity.
  - eexists. split; [exact E|]. split; [exact He|].
    apply (Hlater [(500000, "b")]). repeat constructor.
Defined.

(** C5 on the freshly started process, reading at the time of the append. *)
Lemma clear_then_append_witness :
  ∃ s1 s2,
    clear_logs ex_listener ex_system
      = Ret (jsonify (MessageBody true "Listener logs cleared successfully")) s1 ∧
    get_logs 10 ex_listener (final (log_to_redis 10 "m" "listener" s1))
      = Ret (jsonify (LogsBody true ["m"])) s2.
Proof.
  change "Listener logs cleared successfully"
    with (str_capitalize "listener" +:+ " logs cleared successfully").
  apply (clear_then_append "listener" "m" 10 10 ex_listener ex_listener ex_system).
  - vm_compute. reflexivity.
  - vm_compute. reflexivity.
  - vm_compute. reflexivity.
  - lia.
Defined.


(** C9 on requests without arguments. *)
Lemma default_source_is_listener_witness :
  get_logs 10 ∅ ex_system = get_logs 10 (<["type" := "listener"]> ∅) ex_system ∧
  clear_logs ∅ ex_system = clear_logs (<["type" := "listener"]> ∅) ex_system ∧
  get_logs 10 ∅ ex_system
    = Ret (jsonify (LogsBody true
             (dict_fromkeys (live_items 10 "system_logs_listener" (redis_client ex_system)))))
          ex_system ∧
  ∃ s',
    clear_logs ∅ ex_system
      = Ret (jsonify (MessageBody true "Listener logs cleared successfully")) s' ∧
    db (redis_client s') = delete "system_logs_listener" (db (redis_client ex_system)).
Proof.
  apply (default_source_is_listener 10 ∅ ∅ ex_system).
  - reflexivity.
  - reflexivity.
  - vm_compute. reflexivity.
Defined.



(** * Further properties of the handler *)

Lemma doRollover_ready s :
  ∃ s',
    doRollover s = Ret tt s' ∧
    stream (self s') = Some EmptyString ∧
    is_Some (file_at (os s') (baseFilename (self s'))) ∧
    baseFilename (self s') = baseFilename (self s) ∧
    maxBytes (self s') = maxBytes (self s) ∧
    backupCount (self s') = backupCount (self s).
Proof.
  exists (rolled s). split; [apply doRollover_rolled|].
  unfold rolled. cbn [self os stream set_stream baseFilename maxBytes backupCount].
  split; [done|]. split; [rewrite file_at_opened; eauto|].
  unfold rolled_date. by case_bool_decide.
Qed.

(** X3. When [doRollover] returns, it has reopened the stream on
    [baseFilename], the path the constructor fixed, and not on the
    [base_filename] it may just have recomputed: the stream is open with an
    empty buffer, a file is present at [baseFilename], which is the same
    path as before, and the recorded date is the date read from the
    clock. *)
Theorem doRollover_reopens s s' :
  doRollover s = Ret tt s' →
  stream (self s') = Some EmptyString ∧
  is_Some (file_at (os s') (baseFilename (self s'))) ∧
  baseFilename (self s') = baseFilename (self s) ∧
  current_date (self s') = date (clock (os s) (tick (os s))).
Proof.
  rewrite doRollover_rolled. intros [= <-].
  unfold rolled. cbn [self os stream set_stream current_date baseFilename].
  split; [done|]. split; [rewrite file_at_opened; eauto|].
  unfold rolled_date. case_bool_decide as Hd; [done|].
  split; [done|]. symmetry. exact Hd.
Qed.

Lemma shouldRollover_ready record s :
  handler_ready (os s) (self s) →
  ∃ b s',
    shouldRollover record s = Ret b s' ∧
    handler_ready (os s') (self s') ∧
    baseFilename (self s') = baseFilename (self s) ∧
    maxBytes (self s') = maxBytes (self s) ∧
    backupCount (self s') = backupCount (self s).
Proof.
  intros [[buf Hs] [c Hf]].
  rewrite (shouldRollover_eval record s buf c Hs Hf).
  assert (Hfl : is_Some (file_at (flushed (self s) (os s)) (baseFilename (self s)))).
  { rewrite file_at_flushed, Hf. eauto. }
  repeat case_bool_decide; eexists _, _; (split; [reflexivity|]);
    cbn [self os baseFilename maxBytes backupCount set_stream set_date];
    (split; [split; [by eexists|by rewrite ?file_at_advance]|done]).
Qed.

Lemma FileHandler_emit_ready record s :
  handler_ready (os s) (self s) →
  ∃ s',
    FileHandler_emit record s = Ret tt s' ∧
    handler_ready (os s') (self s') ∧
    baseFilename (self s') = baseFilename (self s) ∧
    maxBytes (self s') = maxBytes (self s) ∧
    backupCount (self s') = backupCount (self s).
Proof.
  intros [[buf Hs] [c Hf]]. rewrite (FileHandler_emit_eval record s buf Hs).
  eexists. split; [reflexivity|].
  cbn [self os baseFilename maxBytes backupCount set_stream].
  split; [|done]. split; [by eexists|].
  pose proof (file_at_flushed
    (set_stream (Some (buf +:+ format record +:+ terminator)) (self s)) (os s)) as E.
  cbn [baseFilename set_stream stream] in E. cbn [baseFilename set_stream].
  rewrite E, Hf. eauto.
Qed.

Lemma check_and_roll_ready record s :
  handler_ready (os s) (self s) →
  ∃ s',
    (r <- shouldRollover record ;; if r : bool then doRollover else ret tt) s = Ret tt s' ∧
    handler_ready (os s') (self s') ∧
    baseFilename (self s') = baseFilename (self s) ∧
    maxBytes (self s') = maxBytes (self s) ∧
    backupCount (self s') = backupCount (self s).
Proof.
  intros Hr.
  destruct (shouldRollover_ready record s Hr) as (b & s1 & H1 & Hr1 & HB1 & Hm1 & Hc1).
  erewrite bind_ret by exact H1. destruct b.
  - destruct (doRollover_ready s1) as (s2 & H2 & Hs2 & Hf2 & HB2 & Hm2 & Hc2).
    exists s2. split; [done|]. split; [split; [by rewrite Hs2|done]|]. 
    by rewrite HB2, Hm2, Hc2.
  - exists s1. done.
Qed.

Lemma emit_ready record s :
  handler_ready (os s) (self s) →
  ∃ s',
    emit record s = Ret tt s' ∧
    handler_ready (os s') (self s') ∧
    baseFilename (self s') = baseFilename (self s) ∧
    maxBytes (self s') = maxBytes (self s) ∧
    backupCount (self s') = backupCount (self s).
Proof.
  intros Hr.
  destruct (check_and_roll_ready record s Hr) as (s1 & H1 & Hr1 & HB1 & Hm1 & Hc1).
  destruct (check_and_roll_ready record s1 Hr1) as (s2 & H2 & Hr2 & HB2 & Hm2 & Hc2).
  destruct (FileHandler_emit_ready record s2 Hr2) as (s3 & H3 & Hr3 & HB3 & Hm3 & Hc3).
  exists s3. split; [|split; [done|by rewrite HB3, Hm3, Hc3, HB2, Hm2, Hc2]].
  unfold emit. unfold bind in H1, H2. unfold bind.
  destruct (shouldRollover record s) as [b sa|e sa]; [|done].
  rewrite H1. unfold BaseRotatingHandler_emit, try_except, bind.
  destruct (shouldRollover record s1) as [b' sb|e' sb]; [|done].
  by rewrite H2, H3.
Qed.

(** X1. Whatever state [emit] starts in and however it ends, it leaves
    [baseFilename], [maxBytes] and [backupCount] of the handler as they
    were: the file the stream is opened on never changes after
    construction. *)
Theorem emit_keeps_attributes record s :
  let h' := self (final (emit record s)) in
  baseFilename h' = baseFilename (self s) ∧
  maxBytes h' = maxBytes (self s) ∧
  backupCount h' = backupCount (self s).
Proof.
  destruct (stream (self s)) as [buf|] eqn:Hs.
  2:{ by rewrite emit_closed. }
  destruct (file_at (os s) (baseFilename (self s))) as [c|] eqn:Hf.
  2:{ by rewrite (emit_missing _ _ buf). }
  destruct (emit_ready record s) as (s' & -> & _ & H); [|done].
  split; [by rewrite Hs|by rewrite Hf].
Qed.

(** *** The whole effect of a rotation on the directory *)

Lemma file_at_renamed_moved src dst o :
  abspath o src ≠ abspath o dst →
  file_at (renamed src dst o) src = None ∧
  file_at (renamed src dst o) dst =
    match file_at o src with Some c => Some c | None => file_at o dst end.
Proof.
  intros Hne. split; [by apply file_at_renamed_src|].
  destruct (file_at o src) as [c|] eqn:E.
  - by apply file_at_renamed_dst.
  - by rewrite renamed_missing.
Qed.

Lemma backup_name_step o i d :
  abspath o (backup_name i d) ≠ abspath o (backup_name (i + 1) d).
Proof. intros E%backup_name_inj. lia. Qed.

(** The loop over [range(n - 1, 0, -1)] in full: backups move up by one,
    present or not, the slot of backup 1 is left empty, and the last slot
    keeps its file when the one below it is missing. *)
Lemma shift_loop_full d (n : nat) o :
  let o' := foldl (shifted d) o (range_down (Z.of_nat (S n))) in
  (∀ p, abspath o' p = abspath o p) ∧
  ((1 ≤ n)%nat → file_at o' (backup_name 1 d) = None) ∧
  (∀ j, (2 ≤ j ≤ n)%nat →
     file_at o' (backup_name j d) = file_at o (backup_name (j - 1) d)) ∧
  ((1 ≤ n)%nat →
     file_at o' (backup_name (n + 1) d) =
       match file_at o (backup_name n d) with
       | Some c => Some c
       | None => file_at o (backup_name (n + 1) d)
       end) ∧
  (∀ p, (∀ i, (1 ≤ i ≤ n + 1)%nat → abspath o p ≠ abspath o (backup_name i d)) →
     file_at o' p = file_at o p).
Proof.
  revert o. induction n as [|m IH]; intros o.
  { cbn. split; [done|]. split; [intros; lia|]. split; [intros; lia|].
    split; [intros; lia|done]. }
  rewrite range_down_succ. cbn [foldl].
  set (o1 := shifted d o (S m)).
  assert (Hp : ∀ p, abspath o1 p = abspath o p) by (intros; apply abspath_renamed).
  destruct (file_at_renamed_moved (backup_name (S m) d) (backup_name (S m + 1) d) o
              (backup_name_step o (S m) d)) as [Hsrc Hdst].
  fold (shifted d o (S m)) in Hsrc, Hdst. fold o1 in Hsrc, Hdst.
  assert (Hoth : ∀ i, i ≠ S m → i ≠ (S m + 1)%nat →
            file_at o1 (backup_name i d) = file_at o (backup_name i d)).
  { intros i H1 H2. apply file_at_renamed_other; intros E%backup_name_inj; lia. }
  destruct (IH o1) as (IHp & IH1 & IHj & IHn & IHo). fold o1 in IHp, IH1, IHj, IHn, IHo.
  set (o' := foldl (shifted d) o1 (range_down (Z.of_nat (S m)))) in *.
  assert (Hlast : file_at o' (backup_name (S m + 1) d) = file_at o1 (backup_name (S m + 1) d)).
  { apply IHo. intros i Hi. rewrite !Hp. intros E%backup_name_inj. lia. }
  split; [intros p; by rewrite IHp|]. split; [|split; [|split]].
  - intros _. destruct m as [|m'].
    + unfold o'. rewrite range_down_nonpos by lia. exact Hsrc.
    + apply IH1. lia.
  - intros j Hj. destruct (decide (j = S m)) as [->|Hne].
    + replace (S m - 1)%nat with m by lia.
      destruct m as [|m']; [lia|].
      replace (S (S m')) with (S m' + 1)%nat by lia.
      rewrite IHn by lia.
      replace (S m' + 1)%nat with (S (S m')) by lia.
      rewrite Hsrc, Hoth by lia. by destruct (file_at o (backup_name (S m') d)).
    + rewrite IHj by lia. apply Hoth; lia.
  - intros _. by rewrite Hlast, Hdst.
  - intros p Hp'. rewrite IHo.
    + apply file_at_renamed_other; apply Hp'; lia.
    + intros i Hi. rewrite !Hp. apply Hp'. lia.
Qed.

Lemma clock_tick_renamed src dst o :
  clock (renamed src dst o) = clock o ∧ tick (renamed src dst o) = tick o.
Proof. unfold renamed. by destruct (file_at o src). Qed.

Lemma clock_tick_opened p o :
  clock (opened p o) = clock o ∧ tick (opened p o) = tick o.
Proof. unfold opened. by destruct (file_at o p). Qed.

Lemma clock_tick_shifted d l o :
  clock (foldl (shifted d) o l) = clock o ∧ tick (foldl (shifted d) o l) = tick o.
Proof.
  revert o. induction l as [|i l IH]; intros o; [done|].
  cbn [foldl]. destruct (IH (shifted d o i)) as [-> ->]. apply clock_tick_renamed.
Qed.

(** The directory after a rotation on the recorded date, for a handler
    whose names are as the constructor leaves them. *)
Lemma rolled_files s d :
  current_date (self s) = d →
  date (clock (os s) (tick (os s))) = d →
  base_filename (self s) = active_name d →
  baseFilename (self s) = abspath (os s) (active_name d) →
  let o := os s in
  let o' := os (rolled s) in
  let n := backupCount (self s) in
  self (rolled s) = set_stream (Some EmptyString) (self s) ∧
  (∀ p, abspath o' p = abspath o p) ∧
  clock o' = clock o ∧ tick o' = S (tick o) ∧
  (∀ j : nat, (2 ≤ j)%nat → Z.of_nat j < n →
     file_at o' (backup_name j d) = file_at o (backup_name (j - 1) d)) ∧
  (2 ≤ n →
     file_at o' (backup_name (Z.to_nat n) d) =
       match file_at o (backup_name (Z.to_nat n - 1) d) with
       | Some c => Some c
       | None => file_at o (backup_name (Z.to_nat n) d)
       end) ∧
  file_at o' (backup_name 1 d) =
    match file_at o (active_name d) with
    | Some c => Some (c +:+ default EmptyString (stream (self s)))
    | None => if decide (2 ≤ n) then None else file_at o (backup_name 1 d)
    end ∧
  file_at o' (active_name d) = Some EmptyString ∧
  (∀ p, abspath o p ≠ abspath o (active_name d) →
     (∀ i : nat, (1 ≤ i)%nat → Z.of_nat i ≤ Z.max n 1 →
        abspath o p ≠ abspath o (backup_name i d)) →
     file_at o' p = file_at o p).
Proof.
  intros Hd Hnow Hbase HBase o o' n. unfold o'. clear o'.
  unfold rolled. rewrite Hnow. unfold rolled_date.
  rewrite bool_decide_eq_false_2 by (cbn; rewrite Hd; tauto).
  cbn [current_date base_filename baseFilename backupCount set_stream self os stream].
  rewrite Hd, Hbase, HBase. fold o n.
  set (o1 := advance (flushed (self s) o)).
  set (o3 := foldl (shifted d) o1 (range_down n)).
  set (o4 := renamed (active_name d) (backup_name 1 d) o3).
  set (A := abspath o (active_name d)).
  assert (Hp1 : ∀ p, abspath o1 p = abspath o p).
  { intros p. unfold o1. apply abspath_flushed. }
  assert (Hb1 : ∀ p, abspath o p ≠ A → file_at o1 p = file_at o p).
  { intros p Hp. unfold o1. rewrite file_at_advance. apply file_at_flushed_other.
    fold o in HBase. by rewrite HBase, abspath_idemp. }
  assert (Hk1 : ∀ i, file_at o1 (backup_name i d) = file_at o (backup_name i d)).
  { intros i. apply Hb1, backup_name_not_active. }
  assert (Ha1 : file_at o1 (active_name d) =
                (λ c, c +:+ default EmptyString (stream (self s))) <$> file_at o (active_name d)).
  { rewrite <- (file_at_base o o1), <- (file_at_base o o (active_name d)) by done.
    unfold o1. rewrite file_at_advance. fold o in HBase. rewrite <- HBase.
    apply file_at_flushed. }
  assert (Hloop :
    (∀ p, abspath o3 p = abspath o1 p) ∧
    (2 ≤ n → file_at o3 (backup_name 1 d) = None) ∧
    (∀ j : nat, (2 ≤ j)%nat → Z.of_nat j < n →
       file_at o3 (backup_name j d) = file_at o1 (backup_name (j - 1) d)) ∧
    (2 ≤ n →
       file_at o3 (backup_name (Z.to_nat n) d) =
         match file_at o1 (backup_name (Z.to_nat n - 1) d) with
         | Some c => Some c
         | None => file_at o1 (backup_name (Z.to_nat n) d)
         end) ∧
    (∀ p, (∀ i : nat, (1 ≤ i)%nat → Z.of_nat i ≤ n → 2 ≤ n →
             abspath o1 p ≠ abspath o1 (backup_name i d)) →
       file_at o3 p = file_at o1 p)).
  { unfold o3. destruct (decide (n ≤ 1)) as [Hle|Hgt].
    - rewrite range_down_nonpos by done. cbn.
      split; [done|]. split; [intros; lia|]. split; [intros; lia|].
      split; [intros; lia|done].
    - destruct (Z.to_nat n) as [|[|m]] eqn:En; [lia|lia|].
      replace n with (Z.of_nat (S (S m))) by lia.
      destruct (shift_loop_full d (S m) o1) as (L1 & L2 & L3 & L4 & L5).
      split; [done|]. split; [intros; apply L2; lia|].
      split; [intros j ? ?; apply L3; lia|]. split.
      + intros _. specialize (L4 ltac:(lia)).
        replace (S m + 1)%nat with (S (S m)) in L4 by lia.
        by replace (S (S m) - 1)%nat with (S m) by lia.
      + intros p Hp. apply L5. intros i Hi. apply Hp; lia. }
  destruct Hloop as (Hp3 & H31 & H3j & H3n & H3o).
  assert (Hne : ∀ i, abspath o (backup_name i d) ≠ A).
  { intros i. apply backup_name_not_active. }
  assert (Ha3 : file_at o3 (active_name d) = file_at o1 (active_name d)).
  { apply H3o. intros i _ _ _. rewrite !Hp1. intros E. by apply (Hne i). }
  assert (Hp4 : ∀ p, abspath o4 p = abspath o p).
  { intros p. unfold o4. by rewrite abspath_renamed, Hp3, Hp1. }
  assert (HpO : ∀ p, abspath (opened A o4) p = abspath o p).
  { intros p. by rewrite abspath_opened, Hp4. }
  assert (Hopen : ∀ p, abspath o p ≠ A → file_at (opened A o4) p = file_at o4 p).
  { intros p Hp. apply file_at_opened_other. unfold A. by rewrite abspath_idemp, Hp4. }
  assert (H4 : ∀ p, abspath o p ≠ A → abspath o p ≠ abspath o (backup_name 1 d) →
            file_at o4 p = file_at o3 p).
  { intros p H1 H2. unfold o4. apply file_at_renamed_other; by rewrite !Hp3, !Hp1. }
  assert (Hstep : ∀ i j, i ≠ j →
            abspath o (backup_name i d) ≠ abspath o (backup_name j d)).
  { intros i j Hij E%backup_name_inj. done. }
  split; [done|]. split; [done|].
  split. { rewrite (proj1 (clock_tick_opened _ _)). unfold o4.
           rewrite (proj1 (clock_tick_renamed _ _ _)). unfold o3.
           rewrite (proj1 (clock_tick_shifted _ _ _)). unfold o1.
           by rewrite clock_advance, clock_flushed. }
  split. { rewrite (proj2 (clock_tick_opened _ _)). unfold o4.
           rewrite (proj2 (clock_tick_renamed _ _ _)). unfold o3.
           rewrite (proj2 (clock_tick_shifted _ _ _)). unfold o1.
           by rewrite tick_advance, tick_flushed. }
  split; [|split; [|split; [|split]]].
  - intros j Hj Hjn. rewrite Hopen, H4 by (try apply Hne; apply Hstep; lia).
    by rewrite H3j, Hk1.
  - intros Hn. rewrite Hopen, H4 by (try apply Hne; apply Hstep; lia).
    by rewrite H3n, !Hk1.
  - rewrite Hopen by apply Hne. unfold o4.
    destruct (file_at_renamed_moved (active_name d) (backup_name 1 d) o3) as [_ ->].
    { rewrite !Hp3, !Hp1. intros E. by apply (Hne 1%nat). }
    rewrite Ha3, Ha1. destruct (file_at o (active_name d)) as [c|]; [done|]. cbn.
    case_decide as Hn.
    + by apply H31.
    + rewrite H3o, Hk1; [done|]. intros i Hi1 Hi2 Hi3. lia.
  - rewrite <- (file_at_base o) by done. fold A. rewrite file_at_opened.
    unfold A. rewrite (file_at_base o) by done.
    unfold o4. rewrite file_at_renamed_src; [done|].
    rewrite !Hp3, !Hp1. intros E. by apply (Hne 1%nat).
  - intros p HpA Hpk. rewrite Hopen by done.
    rewrite H4; [|done|apply Hpk; lia].
    rewrite H3o; [by apply Hb1|]. intros i Hi1 Hi2 Hi3. rewrite !Hp1. apply Hpk; lia.
Qed.

(** *** A write without and with a rotation *)

(** The state after a write that needs no rotation. *)
Lemma emit_plain_eval record s buf c :
  stream (self s) = Some buf →
  file_at (os s) (baseFilename (self s)) = Some c →
  Z.of_nat (String.length (c +:+ buf)) < maxBytes (self s) →
  date (clock (os s) (tick (os s))) = current_date (self s) →
  date (clock (os s) (S (tick (os s)))) = current_date (self s) →
  let h := set_stream (Some EmptyString) (self s) in
  emit record s =
    Ret tt {| self := h;
              os := flushed (set_stream (Some (EmptyString +:+ format record +:+ terminator)) h)
                      (advance (flushed h (advance (flushed (self s) (os s))))) |}.
Proof.
  intros Hs Hf Hsize Hd0 Hd1 h.
  set (o1 := advance (flushed (self s) (os s))).
  assert (H1 : shouldRollover record s = Ret false {| self := h; os := o1 |}).
  { rewrite (shouldRollover_eval record s buf c Hs Hf).
    rewrite bool_decide_eq_false_2 by lia.
    rewrite bool_decide_eq_false_2 by (rewrite Hd0; tauto). done. }
  assert (Hf1 : file_at o1 (baseFilename h) = Some (c +:+ buf)).
  { unfold o1. rewrite file_at_advance. cbn [h baseFilename set_stream].
    by rewrite file_at_flushed, Hf, Hs. }
  assert (H2 : shouldRollover record {| self := h; os := o1 |}
               = Ret false {| self := h; os := advance (flushed h o1) |}).
  { rewrite (shouldRollover_eval record _ EmptyString (c +:+ buf)); [|done|exact Hf1].
    rewrite string_app_nil_r. cbn [self os].
    rewrite bool_decide_eq_false_2 by (cbn; lia).
    assert (date (clock o1 (tick o1)) = current_date (self s)) as ->.
    { unfold o1. by rewrite clock_advance, clock_flushed, tick_advance, tick_flushed. }
    rewrite bool_decide_eq_false_2 by (cbn; tauto). done. }
  unfold emit. erewrite bind_ret by exact H1. erewrite bind_ret by reflexivity.
  unfold BaseRotatingHandler_emit, try_except.
  erewrite bind_ret by exact H2. erewrite bind_ret by reflexivity.
  by erewrite FileHandler_emit_eval by reflexivity.
Qed.

Lemma emit_plain_files record s buf c :
  stream (self s) = Some buf →
  file_at (os s) (baseFilename (self s)) = Some c →
  Z.of_nat (String.length (c +:+ buf)) < maxBytes (self s) →
  date (clock (os s) (tick (os s))) = current_date (self s) →
  date (clock (os s) (S (tick (os s)))) = current_date (self s) →
  let o' := os (final (emit record s)) in
  file_at o' (baseFilename (self s))
    = Some (c +:+ buf +:+ format record +:+ terminator) ∧
  ∀ p, abspath (os s) p ≠ abspath (os s) (baseFilename (self s)) →
       file_at o' p = file_at (os s) p.
Proof.
  intros Hs Hf Hsize Hd0 Hd1 o'. unfold o'.
  rewrite (emit_plain_eval record s buf c) by done. cbn [final os]. split.
  - pose proof (file_at_flushed
      (set_stream (Some (EmptyString +:+ format record +:+ terminator))
         (set_stream (Some EmptyString) (self s)))) as E3.
    cbn [baseFilename set_stream stream] in E3. rewrite E3. clear E3.
    rewrite file_at_advance.
    pose proof (file_at_flushed (set_stream (Some EmptyString) (self s))) as E2.
    cbn [baseFilename set_stream stream] in E2. rewrite E2. clear E2.
    rewrite file_at_advance, file_at_flushed, Hf, Hs. cbn.
    by rewrite string_app_nil_r, string_app_assoc.
  - intros p Hp.
    rewrite file_at_flushed_other
      by (by repeat (rewrite abspath_flushed || rewrite abspath_advance)).
    rewrite file_at_advance.
    rewrite file_at_flushed_other
      by (by repeat (rewrite abspath_flushed || rewrite abspath_advance)).
    rewrite file_at_advance. by apply file_at_flushed_other.
Qed.

(** X4. A write below [maxBytes] on the recorded date does not rotate:
    the file gets what was buffered and then exactly one line,
    [asctime - levelname - message] and a newline; the handler keeps its
    date and names, and no other path of the directory changes. *)
Theorem emit_appends_record record s buf c :
  stream (self s) = Some buf →
  file_at (os s) (baseFilename (self s)) = Some c →
  Z.of_nat (String.length (c +:+ buf)) < maxBytes (self s) →
  date (clock (os s) (tick (os s))) = current_date (self s) →
  date (clock (os s) (S (tick (os s)))) = current_date (self s) →
  ∃ s',
    emit record s = Ret tt s' ∧
    self s' = set_stream (Some EmptyString) (self s) ∧
    file_at (os s') (baseFilename (self s))
      = Some (c +:+ buf +:+ format record +:+ terminator) ∧
    ∀ p, abspath (os s) p ≠ abspath (os s) (baseFilename (self s)) →
         file_at (os s') p = file_at (os s) p.
Proof.
  intros Hs Hf Hsize Hd0 Hd1.
  pose proof (emit_plain_files record s buf c Hs Hf Hsize Hd0 Hd1) as [Hfile Hoth].
  rewrite (emit_plain_eval record s buf c) in Hfile, Hoth by done. cbn [final] in Hfile, Hoth.
  eexists. split; [by apply (emit_plain_eval record s buf c)|]. done.
Qed.

(** X5. A rotation moves the numbered backups up as they are, gaps
    included: for [2 ≤ j < backupCount] backup [j] afterwards is what backup
    [j - 1] was, present or absent.  The last backup takes the file below
    it when there is one and otherwise keeps its own.  With no active file
    to close, the slot of backup 1 is left empty. *)
Theorem doRollover_renumbers s d :
  current_date (self s) = d →
  date (clock (os s) (tick (os s))) = d →
  base_filename (self s) = active_name d →
  baseFilename (self s) = abspath (os s) (active_name d) →
  ∃ s',
    doRollover s = Ret tt s' ∧
    (∀ j : nat, (2 ≤ j)%nat → Z.of_nat j < backupCount (self s) →
       file_at (os s') (backup_name j d) = file_at (os s) (backup_name (j - 1) d)) ∧
    (2 ≤ backupCount (self s) →
       file_at (os s') (backup_name (Z.to_nat (backupCount (self s))) d) =
         match file_at (os s) (backup_name (Z.to_nat (backupCount (self s)) - 1) d) with
         | Some c => Some c
         | None => file_at (os s) (backup_name (Z.to_nat (backupCount (self s))) d)
         end) ∧
    (file_at (os s) (active_name d) = None → 2 ≤ backupCount (self s) →
       file_at (os s') (backup_name 1 d) = None).
Proof.
  intros Hd Hnow Hbase HBase. exists (rolled s). split; [apply doRollover_rolled|].
  destruct (rolled_files s d Hd Hnow Hbase HBase)
    as (_ & _ & _ & _ & Hj & Hn & H1 & _).
  split; [done|]. split; [done|].
  intros Ha Hb. rewrite H1, Ha. by rewrite decide_True.
Qed.

(** X6. A rotation changes no path other than the active file and the
    backups numbered 1 to [backupCount]: backups with higher numbers, files
    of other dates and foreign files stay as they are (nothing is ever
    deleted). *)
Theorem doRollover_touches_only_logs s d p :
  current_date (self s) = d →
  date (clock (os s) (tick (os s))) = d →
  base_filename (self s) = active_name d →
  baseFilename (self s) = abspath (os s) (active_name d) →
  abspath (os s) p ≠ abspath (os s) (active_name d) →
  (∀ i : nat, (1 ≤ i)%nat → Z.of_nat i ≤ Z.max (backupCount (self s)) 1 →
     abspath (os s) p ≠ abspath (os s) (backup_name i d)) →
  file_at (os (final (doRollover s))) p = file_at (os s) p.
Proof.
  intros Hd Hnow Hbase HBase Hp Hk. rewrite doRollover_rolled. cbn [final].
  destruct (rolled_files s d Hd Hnow Hbase HBase) as (_ & _ & _ & _ & _ & _ & _ & _ & Ho).
  by apply Ho.
Qed.


(** X8. A write that finds the file at or over a positive [maxBytes]
    rotates once: the old content becomes backup 1, the older backups move
    up, and the new active file holds the one record just written. *)
Theorem emit_rotates_by_size record s d buf c :
  current_date (self s) = d →
  base_filename (self s) = active_name d →
  baseFilename (self s) = abspath (os s) (active_name d) →
  stream (self s) = Some buf →
  file_at (os s) (active_name d) = Some c →
  0 < maxBytes (self s) ≤ Z.of_nat (String.length (c +:+ buf)) →
  date (clock (os s) (tick (os s))) = d →
  date (clock (os s) (S (tick (os s)))) = d →
  ∃ s',
    emit record s = Ret tt s' ∧
    file_at (os s') (backup_name 1 d) = Some (c +:+ buf) ∧
    file_at (os s') (active_name d) = Some (format record +:+ terminator) ∧
    (∀ j : nat, (2 ≤ j)%nat → Z.of_nat j < backupCount (self s) →
       file_at (os s') (backup_name j d) = file_at (os s) (backup_name (j - 1) d)) ∧
    current_date (self s') = d ∧ base_filename (self s') = active_name d.
Proof.
  intros Hd Hbase HBase Hs Hc Hsize Hd0 Hd1.
  set (h := self s) in *. set (o := os s) in *.
  assert (Hf : file_at o (baseFilename h) = Some c).
  { rewrite HBase. by rewrite (file_at_base o o). }
  (* the first check *)
  set (h1 := set_stream (Some EmptyString) h).
  set (o1 := flushed h o).
  assert (H1 : shouldRollover record s = Ret true {| self := h1; os := o1 |}).
  { rewrite (shouldRollover_eval record s buf c Hs Hf).
    fold h. by rewrite bool_decide_eq_true_2 by lia. }
  assert (Hp1 : ∀ p, abspath o1 p = abspath o p) by (intros; apply abspath_flushed).
  assert (Ha1 : file_at o1 (active_name d) = Some (c +:+ buf)).
  { rewrite <- (file_at_base o o1) by done. rewrite <- HBase.
    unfold o1. by rewrite file_at_flushed, Hf, Hs. }
  (* the rotation *)
  set (s1 := {| self := h1; os := o1 |}).
  destruct (rolled_files s1 d) as (Hself & Hp2 & Hck2 & Htk2 & Hj2 & _ & Hb2 & Ha2 & Ho2).
  { done. } { cbn [s1 os]. unfold o1. by rewrite clock_flushed, tick_flushed. }
  { done. } { cbn [s1 self os h1 baseFilename set_stream]. by rewrite Hp1. }
  set (s2 := rolled s1) in *. set (o2 := os s2) in *.
  change (self s1) with h1 in *. change (os s1) with o1 in *.
  change (stream h1) with (Some EmptyString) in *.
  change (backupCount h1) with (backupCount h) in *.
  rewrite Ha1 in Hb2. cbn [default from_option id] in Hb2.
  rewrite string_app_nil_r in Hb2.
  assert (Hk1 : ∀ i, file_at o1 (backup_name i d) = file_at o (backup_name i d)).
  { intros i. apply file_at_flushed_other. rewrite HBase, abspath_idemp.
    apply backup_name_not_active. }
  assert (HB2 : file_at o2 (baseFilename h1) = Some EmptyString).
  { change (baseFilename h1) with (baseFilename h). rewrite HBase.
    rewrite (file_at_base o o2); [done|]. intros p. by rewrite Hp2, Hp1. }
  (* the inherited emit *)
  assert (H3 : shouldRollover record s2 =
               Ret false {| self := h1; os := advance (flushed h1 o2) |}).
  { rewrite (shouldRollover_eval record s2 EmptyString EmptyString);
      [|by rewrite Hself|by rewrite Hself]. rewrite Hself. fold o2.
    rewrite (string_app_nil_r EmptyString).
    rewrite bool_decide_eq_false_2 by (cbn; fold h; lia).
    assert (date (clock o2 (tick o2)) = d) as ->.
    { rewrite Hck2, Htk2. unfold o1. by rewrite clock_flushed, tick_flushed. }
    rewrite bool_decide_eq_false_2 by (cbn; fold h; rewrite Hd; tauto). done. }
  eexists. split.
  { unfold emit. erewrite bind_ret by exact H1.
    erewrite bind_ret by apply doRollover_rolled. fold s1 s2.
    unfold BaseRotatingHandler_emit, try_except.
    erewrite bind_ret by exact H3. erewrite bind_ret by reflexivity.
    by erewrite FileHandler_emit_eval by reflexivity. }
  cbn [self os].
  set (h3 := set_stream (Some (EmptyString +:+ format record +:+ terminator)) h1).
  assert (Hkeep : ∀ p, abspath o p ≠ abspath o (active_name d) →
            file_at (flushed h3 (advance (flushed h1 o2))) p = file_at o2 p).
  { intros p Hp.
    rewrite file_at_flushed_other.
    2:{ repeat (rewrite abspath_flushed || rewrite abspath_advance).
        change (baseFilename h3) with (baseFilename h).
        by rewrite HBase, abspath_idemp, Hp2, Hp1. }
    rewrite file_at_advance. apply file_at_flushed_other.
    change (baseFilename h1) with (baseFilename h).
    by rewrite HBase, abspath_idemp, Hp2, Hp1. }
  split; [|split; [|split; [|done]]].
  - rewrite Hkeep by apply backup_name_not_active. exact Hb2.
  - rewrite <- (file_at_base o).
    2:{ intros p. repeat (rewrite abspath_flushed || rewrite abspath_advance).
        by rewrite Hp2, Hp1. }
    rewrite <- HBase.
    pose proof (file_at_flushed h3 (advance (flushed h1 o2))) as E3.
    change (baseFilename h3) with (baseFilename h) in E3.
    change (stream h3) with (Some (EmptyString +:+ format record +:+ terminator)) in E3.
    rewrite E3. clear E3. rewrite file_at_advance.
    pose proof (file_at_flushed h1 o2) as E2.
    change (baseFilename h1) with (baseFilename h) in E2, HB2.
    change (stream h1) with (Some EmptyString) in E2.
    rewrite E2, HB2. done.
  - intros j Hj Hjn. rewrite Hkeep by apply backup_name_not_active.
    by rewrite Hj2, Hk1.
Qed.

(** * Further properties of the Redis buffer and the logger *)

Section buffer_more.
Context {B : Builtins}.

Lemma last_1000_push l m :
  last_1000 (l ++ [m]) = drop (List.length l + 1 - 1000)%nat l ++ [m].
Proof.
  unfold last_1000. rewrite length_app. cbn [List.length].
  by rewrite drop_app_le by lia.
Qed.

Lemma stream_key_inj a b : stream_key a = stream_key b → a = b.
Proof. unfold stream_key. intros H. by do 2 apply String.app_inj in H. Qed.

Lemma db_pushed_other t key key' m r :
  key ≠ key' → db (pushed t key m r) !! key' = db r !! key'.
Proof. intros H. unfold pushed, store. cbn [db]. by rewrite lookup_insert_ne. Qed.

Lemma db_expiring_other t key key' r :
  key ≠ key' → db (expiring t key r) !! key' = db r !! key'.
Proof.
  intros H. unfold expiring. destruct (fetch t key r) as [e|]; [|done].
  destruct (expire_at e); [done|]. unfold store. cbn [db]. by rewrite lookup_insert_ne.
Qed.

Lemma live_items_db t key r r' :
  db r' !! key = db r !! key → live_items t key r' = live_items t key r.
Proof. unfold live_items, fetch. by intros ->. Qed.

(** What [logger.info] does when the root logger has one handler. *)
Lemma logger_info_eval msg s h se :
  logger_handlers s = [h] →
  emit {| rec_asctime := asctime (clock (host s) (tick (host s)));
          rec_levelname := "INFO"; rec_message := msg |}
       {| self := h; os := advance (host s) |} = Ret tt se →
  logger_info msg s = Ret tt (set_logger [self se] (os se) s).
Proof.
  intros Hh He. unfold logger_info.
  erewrite bind_ret by reflexivity. erewrite bind_ret by reflexivity.
  cbn [logger_handlers set_logger]. rewrite Hh. cbn [callHandlers host set_logger].
  rewrite He. cbn [final]. reflexivity.
Qed.

(** X10. With the server unreachable [log_to_redis] raises the connection
    error of its first command and changes nothing: the message is not
    written to the log file either, as the file logging comes after the
    push. *)
Theorem log_to_redis_needs_server t m source s msg :
  fault (redis_client s) = Some msg →
  log_to_redis t m source s = Raise (ConnectionError msg) s.
Proof.
  intros Hf. unfold log_to_redis, bind, on_redis, rpush.
  rewrite (command_fault _ _ msg) by done. by rewrite set_redis_same.
Qed.

(** X11. After a call on a reachable server, also one whose file logging
    raised, the message is the newest entry of the stream, and a read at
    that time returns it. *)
Theorem logged_message_is_newest t m source args s :
  fault (redis_client s) = None →
  args !! "type" = Some source →
  let s' := final (log_to_redis t m source s) in
  last (stream_items (stream_key source) (redis_client s')) = Some m ∧
  ∃ logs, get_logs t args s' = Ret (jsonify (LogsBody true logs)) s' ∧ m ∈ logs.
Proof.
  intros Hf Ha s'.
  destruct (log_to_redis_stream t m source s Hf) as (Hf' & Hi & He & _).
  fold s' in Hf', Hi, He.
  assert (Hlast : last (stream_items (stream_key source) (redis_client s')) = Some m).
  { rewrite Hi, last_1000_push. apply last_snoc. }
  split; [done|]. eexists. split.
  { rewrite get_logs_ok, Ha by done. reflexivity. }
  cbn [default from_option id].
  rewrite dict_fromkeys_first_occurrences. apply first_occurrences_elem.
  assert (live_items t (stream_key source) (redis_client s')
          = stream_items (stream_key source) (redis_client s')) as ->.
  { apply live_alive. intros x Hx.
    destruct He as [He|He]; rewrite He in Hx.
    - unfold live_expiry in Hx.
      destruct (fetch t (stream_key source) (redis_client s)) as [e|] eqn:E; [|done].
      apply fetch_Some in E as [_ Hal]. unfold alive in Hal. rewrite Hx in Hal.
      by apply bool_decide_eq_true in Hal.
    - destruct (live_expiry t (stream_key source) (redis_client s)) as [y|] eqn:Ey;
        cbn in Hx; injection Hx as <-; [|lia].
      unfold live_expiry in Ey.
      destruct (fetch t (stream_key source) (redis_client s)) as [e|] eqn:E; [|done].
      apply fetch_Some in E as [_ Hal]. unfold alive in Hal. rewrite Ey in Hal.
      by apply bool_decide_eq_true in Hal. }
  apply last_Some_elem_of, Hlast.
Qed.

(** X12. On a stream that holds 1000 live entries a call drops exactly the
    oldest one and appends the message. *)
Theorem full_stream_drops_oldest t m source s x l :
  fault (redis_client s) = None →
  live_items t (stream_key source) (redis_client s) = x :: l →
  List.length l = 999%nat →
  stream_items (stream_key source) (redis_client (final (log_to_redis t m source s)))
  = l ++ [m].
Proof.
  intros Hf Hl Hlen.
  destruct (log_to_redis_stream t m source s Hf) as (_ & Hi & _).
  rewrite Hi, Hl, last_1000_push. cbn [List.length].
  by replace (S (List.length l) + 1 - 1000)%nat with 1%nat by lia.
Qed.

(** X13. [get_logs] never raises and never changes the state.  On a
    reachable server it answers with the first occurrences of the live
    entries of the source (the default source is [listener]); on an
    unreachable one with status 500 and the text of the error. *)
Theorem get_logs_reads_only t args s :
  ∃ r,
    get_logs t args s = Ret r s ∧
    match fault (redis_client s) with
    | None =>
        r = jsonify (LogsBody true
              (first_occurrences
                 (live_items t (stream_key (default "listener" (args !! "type")))
                    (redis_client s))))
    | Some msg => r = jsonify_500 (MessageBody false ("Error fetching logs: " +:+ msg))
    end.
Proof.
  destruct (fault (redis_client s)) as [msg|] eqn:Hf.
  - eexists. split; [|reflexivity].
    unfold get_logs, try_except, bind, on_redis, lrange.
    rewrite (command_fault _ _ msg) by done. by rewrite set_redis_same.
  - eexists. split; [by apply get_logs_ok|].
    by rewrite dict_fromkeys_first_occurrences.
Qed.

Lemma clear_logs_ok form s :
  fault (redis_client s) = None →
  let source := default "listener" (form !! "type") in
  clear_logs form s =
    Ret (jsonify (MessageBody true (str_capitalize source +:+ " logs cleared successfully")))
        (set_redis (store (stream_key source) None (redis_client s)) s).
Proof.
  intros Hf source. unfold clear_logs, try_except. fold source.
  erewrite bind_ret; [reflexivity|].
  apply on_redis_ret. unfold redis_delete. by rewrite command_ok.
Qed.

(** X14. On a reachable server [clear_logs] answers with status 200,
    leaves the files and the handlers alone, and a read of the same source
    then returns the empty list, at any time. *)
Theorem clear_logs_empties form args t s :
  fault (redis_client s) = None →
  args !! "type" = form !! "type" →
  ∃ r s',
    clear_logs form s = Ret r s' ∧
    status r = 200 ∧
    host s' = host s ∧ logger_handlers s' = logger_handlers s ∧
    get_logs t args s' = Ret (jsonify (LogsBody true [])) s'.
Proof.
  intros Hf Ha. eexists _, _. split; [by apply clear_logs_ok|].
  split; [done|]. split; [done|]. split; [done|].
  rewrite get_logs_ok by done. rewrite Ha.
  unfold live_items, fetch, store. cbn. by rewrite lookup_delete_eq.
Qed.

(** X15. On an unreachable server [clear_logs] answers with status 500 and
    the text of the error, and changes nothing. *)
Theorem clear_logs_server_down form s msg :
  fault (redis_client s) = Some msg →
  clear_logs form s
  = Ret (jsonify_500 (MessageBody false ("Error clearing logs: " +:+ msg))) s.
Proof.
  intros Hf. unfold clear_logs, try_except, bind, on_redis, redis_delete.
  rewrite (command_fault _ _ msg) by done. by rewrite set_redis_same.
Qed.

(** X16. Streams are separate: a call of [log_to_redis] or of [clear_logs]
    for one source leaves what [get_logs] returns for another source as it
    was. *)
Theorem other_sources_untouched t m a b form t' args s :
  a ≠ b →
  args !! "type" = Some b →
  form !! "type" = Some a →
  fault (redis_client s) = None →
  ∃ logs,
    get_logs t' args s = Ret (jsonify (LogsBody true logs)) s ∧
    (let s1 := final (log_to_redis t m a s) in
     get_logs t' args s1 = Ret (jsonify (LogsBody true logs)) s1) ∧
    (let s2 := final (clear_logs form s) in
     get_logs t' args s2 = Ret (jsonify (LogsBody true logs)) s2).
Proof.
  intros Hab Ha Hform Hf.
  assert (Hk : stream_key a ≠ stream_key b) by (by intros E%stream_key_inj).
  eexists. split; [by apply get_logs_ok|]. rewrite Ha. cbn [default from_option id].
  split.
  - set (s1 := final (log_to_redis t m a s)).
    destruct (log_to_redis_stream t m a s Hf) as (Hf1 & _). fold s1 in Hf1.
    rewrite get_logs_ok, Ha by done. cbn [default from_option id].
    do 4 f_equal. apply live_items_db.
    pose proof (log_to_redis_outcome t m a s Hf) as Ho. unfold s1.
    destruct (log_to_redis t m a s) as [[] sx|e sx]; cbn [final]; rewrite Ho.
    + by rewrite db_expiring_other, db_pushed_other.
    + by rewrite db_pushed_other.
  - rewrite clear_logs_ok by done. cbn [final].
    rewrite get_logs_ok, Ha, Hform by done. cbn [default from_option id].
    do 4 f_equal. apply live_items_db. unfold store. cbn.
    by rewrite lookup_delete_ne.
Qed.

(** X17. A call that needs no rotation writes one line to the log file,
    with the time stamp of the record, the level [INFO], the source in upper
    case between brackets and the message, touches no other path, and the
    message is the newest entry of the stream. *)
Theorem log_to_redis_writes_line t m source s h buf c :
  fault (redis_client s) = None →
  logger_handlers s = [h] →
  stream h = Some buf →
  file_at (host s) (baseFilename h) = Some c →
  Z.of_nat (String.length (c +:+ buf)) < maxBytes h →
  date (clock (host s) (S (tick (host s)))) = current_date h →
  date (clock (host s) (S (S (tick (host s))))) = current_date h →
  ∃ s',
    log_to_redis t m source s = Ret tt s' ∧
    file_at (host s') (baseFilename h)
      = Some (c +:+ buf +:+ log_line (clock (host s) (tick (host s))) source m) ∧
    (∀ p, abspath (host s) p ≠ abspath (host s) (baseFilename h) →
       file_at (host s') p = file_at (host s) p) ∧
    last (stream_items (stream_key source) (redis_client s')) = Some m.
Proof.
  intros Hf Hh Hs Hc Hsize Hd1 Hd2.
  set (record := {| rec_asctime := asctime (clock (host s) (tick (host s)));
                    rec_levelname := "INFO";
                    rec_message := "[" +:+ str_upper source +:+ "] " +:+ m |}).
  set (se0 := {| self := h; os := advance (host s) |}).
  pose proof (emit_plain_eval record se0 buf c Hs Hc Hsize Hd1 Hd2) as He.
  cbv zeta in He.
  destruct (log_to_redis_stream t m source s Hf) as (_ & Hi & _).
  assert (Hrun : ∃ s', log_to_redis t m source s = Ret tt s' ∧
            host s' = os (final (emit record se0))).
  { unfold log_to_redis. fold (stream_key source).
    erewrite bind_ret by (by apply on_redis_ret, rpush_ret).
    erewrite bind_ret by (by apply on_redis_ret, ltrim_pushed).
    set (s1 := set_redis _ _).
    erewrite bind_ret by (by eapply (logger_info_eval _ s1 h), He).
    rewrite He. cbn [final].
    set (s2 := set_logger _ _ s1).
    assert (Hf2 : fault (redis_client s2) = None) by done.
    erewrite bind_ret by (by apply on_redis_ret, ttl_ret).
    case_bool_decide as Httl.
    - apply ttl_unset in Httl as (e & E & Ex).
      erewrite bind_ret by (eapply on_redis_ret, expire_unset; eauto).
      eexists. split; reflexivity.
    - eexists. split; reflexivity. }
  destruct Hrun as (s' & Hret & Hhost).
  rewrite Hret in Hi. cbn [final] in Hi.
  exists s'. split; [done|]. rewrite Hhost.
  destruct (emit_plain_files record se0 buf c Hs Hc Hsize Hd1 Hd2) as (Hfile & Hoth).
  change (self se0) with h in Hfile, Hoth.
  split; [|split].
  - rewrite Hfile. unfold log_line, format, record. cbn [rec_asctime rec_levelname rec_message].
    do 2 f_equal. by rewrite !string_app_assoc.
  - exact Hoth.
  - rewrite Hi, last_1000_push. apply last_snoc.
Qed.

End buffer_more.

(** * Further properties of the configuration and of the duplicate filter *)

Section config_more.
Context {B : Builtins}.

(** X18. A request without [maxBytes], or with a numeric [maxBytes] and
    without [backupCount], is not answered by the view: the key error of the
    form lookup is not a [ValueError], so it is raised, and nothing
    changes. *)
Theorem update_missing_field form s :
  form !! "maxBytes" = None ∨
    (∃ a n, form !! "maxBytes" = Some a ∧ py_int a = Some n ∧
            form !! "backupCount" = None) →
  update_logging_config form s = Raise BadRequestKeyError s.
Proof.
  intros [Ha|(a & n & Ha & Hn & Hb)];
    unfold update_logging_config, try_except, bind, form_item, int_of.
  - by rewrite Ha.
  - rewrite Ha. unfold ret. rewrite Hn, Hb. done.
Qed.

Lemma file_at_opened_kept q o p c :
  file_at o p = Some c → file_at (opened q o) p = Some c.
Proof.
  intros Hp. unfold opened. destruct (file_at o q) eqn:Hq; [done|].
  rewrite file_at_set_files.
  destruct (decide (abspath o q = abspath o p)) as [E|E].
  - unfold file_at in Hq, Hp. rewrite E in Hq. congruence.
  - by rewrite lookup_insert_ne.
Qed.

(** X19. When [configure_logging] returns (building the handler opens
    today's file, which the system may refuse), the globals hold the given
    limits and the root logger has exactly one handler, whatever handlers
    it had: the handler has the given limits, today's date and file name,
    and an open stream.  The file is opened for appending, so a file of
    today that exists keeps its content, as does every other file; the
    Redis client is not touched. *)
Theorem configure_logging_installs max_bytes backup_count s s' :
  configure_logging max_bytes backup_count s = Ret tt s' →
  let today := date (clock (host s) (tick (host s))) in
  local_max_bytes s' = max_bytes ∧
  local_backup_count s' = backup_count ∧
  logger_handlers s' =
    [ {| current_date := today; base_filename := active_name today;
         baseFilename := abspath (host s) (active_name today);
         maxBytes := max_bytes; backupCount := backup_count;
         stream := Some EmptyString |} ] ∧
  redis_client s' = redis_client s ∧
  file_at (host s') (active_name today)
    = Some (default EmptyString (file_at (host s) (active_name today))) ∧
  ∀ p c, file_at (host s) p = Some c → file_at (host s') p = Some c.
Proof.
  intros Hrun today. revert Hrun. unfold configure_logging.
  erewrite bind_ret by reflexivity. erewrite bind_ret by reflexivity.
  unfold bind at 1. unfold on_host. cbn [host set_logger set_config].
  rewrite __init___ret. unfold modify. fold today. intros [= <-].
  cbn [logger_handlers host redis_client set_logger app local_max_bytes local_backup_count].
  split; [done|]. split; [done|]. split; [done|]. split; [done|]. split.
  - rewrite <- (file_at_base (host s)) by (intros; by rewrite abspath_opened).
    rewrite file_at_opened, file_at_advance.
    by rewrite (file_at_base (host s) (host s)).
  - intros p c Hp. by apply file_at_opened_kept.
Qed.

(** X20. The view answers with success only for a request whose two fields
    are there and read as positive integers [v] and [k], and only after the
    reconfiguration has returned: the logger then has one handler, with
    [maxBytes = v * 1048576] and [backupCount = k], ready to take records,
    the globals hold the same pair, and the Redis client is untouched. *)
Theorem update_installs_handler form s s' message :
  update_logging_config form s = Ret (jsonify (MessageBody true message)) s' →
  ∃ a b v k h,
    form !! "maxBytes" = Some a ∧ form !! "backupCount" = Some b ∧
    py_int a = Some v ∧ py_int b = Some k ∧
    0 < v ∧ 0 < k ∧
    configure_logging (v * 1024 * 1024) k s = Ret tt s' ∧
    logger_handlers s' = [h] ∧
    maxBytes h = v * 1048576 ∧ backupCount h = k ∧
    handler_ready (host s') h ∧
    local_max_bytes s' = v * 1048576 ∧ local_backup_count s' = k ∧
    redis_client s' = redis_client s.
Proof.
  unfold update_logging_config, try_except, bind, form_item, int_of.
  destruct (form !! "maxBytes") as [a|] eqn:Ha; [|done].
  unfold ret. destruct (py_int a) as [v|] eqn:Hv; [|done].
  destruct (form !! "backupCount") as [b|] eqn:Hb; [|done].
  destruct (py_int b) as [k|] eqn:Hk; [|done].
  case_bool_decide as Hpos; [done|].
  destruct (configure_logging_ret (v * 1024 * 1024) k s)
    as (s1 & h & Hc & Hmb & Hbc & Hr & Hh & Hready & Hm & Hbk).
  unfold bind. rewrite Hc. intros [= _ <-].
  exists a, b, v, k, h.
  repeat (split; [first [done|lia]|]). done.
Qed.

Lemma first_occurrences_sublist l : first_occurrences l `sublist_of` l.
Proof.
  induction l as [|x l IH]; [done|]. cbn [first_occurrences].
  apply sublist_skip. etrans; [apply sublist_filter|done].
Qed.

Lemma filter_ne_absent (x : string) (l : list string) :
  x ∉ l → filter (λ y, y ≠ x) l = l.
Proof.
  induction l as [|y l IH]; [done|]. intros [Hxy Hx]%not_elem_of_cons.
  rewrite filter_cons_True by done. f_equal. by apply IH.
Qed.

Lemma first_occurrences_NoDup_id l : NoDup l → first_occurrences l = l.
Proof.
  induction 1 as [|x l Hx Hl IH]; [done|]. cbn [first_occurrences].
  by rewrite IH, filter_ne_absent.
Qed.

(** X21. [list(dict.fromkeys(l))] has no duplicates, the same members as
    [l], is a sublist of [l] (so the order of first occurrences is kept)
    with the same first element, leaves a duplicate-free list as it is and
    is idempotent. *)
Theorem dict_fromkeys_dedup l :
  NoDup (dict_fromkeys l) ∧
  (∀ x, x ∈ dict_fromkeys l ↔ x ∈ l) ∧
  dict_fromkeys l `sublist_of` l ∧
  head (dict_fromkeys l) = head l ∧
  (NoDup l → dict_fromkeys l = l) ∧
  dict_fromkeys (dict_fromkeys l) = dict_fromkeys l.
Proof.
  rewrite !dict_fromkeys_first_occurrences.
  split; [apply first_occurrences_NoDup|]. split; [apply first_occurrences_elem|].
  split; [apply first_occurrences_sublist|]. split; [by destruct l|].
  split; [apply first_occurrences_NoDup_id|].
  apply first_occurrences_NoDup_id, first_occurrences_NoDup.
Qed.

End config_more.

(** * The further properties at concrete inputs *)

Lemma short_name_not_backup (o : os_state) (name : string) i d :
  String.prefix "/" name = false →
  (String.length name < 17)%nat →
  abspath o name ≠ abspath o (backup_name i d).
Proof.
  intros Hrel Hlen E.
  rewrite abspath_relative in E by done.
  rewrite abspath_relative in E by apply backup_name_relative.
  do 2 apply String.app_inj in E. apply (f_equal String.length) in E.
  unfold backup_name in E. rewrite !string_length_app in E. cbn in E. lia.
Qed.

(** X3 on the handler of the first day when the clock reads the second
    day: the stream is reopened on the file of the first day. *)
Lemma doRollover_reopens_witness :
  ∃ s',
    doRollover ex_next_day = Ret tt s' ∧
    stream (self s') = Some EmptyString ∧
    is_Some (file_at (os s') (baseFilename (self s'))) ∧
    baseFilename (self s') = "/app/system_logs_2024-01-01.txt" ∧
    current_date (self s') = "2024-01-02".
Proof.
  assert (E : doRollover ex_next_day = Ret tt (final (doRollover ex_next_day))).
  { vm_compute. reflexivity. }
  eexists. split; [exact E|].
  exact (doRollover_reopens ex_next_day _ E).
Defined.

(** X4 on the handler with four bytes buffered. *)
Lemma emit_appends_record_witness :
  ∃ s',
    emit (ex_record "x") ex_buffered = Ret tt s' ∧
    self s' = set_stream (Some EmptyString) (self ex_buffered) ∧
    file_at (os s') (baseFilename (self ex_buffered))
      = Some ("head" +:+ "tail" +:+ format (ex_record "x") +:+ terminator) ∧
    ∀ p, abspath (os ex_buffered) p
           ≠ abspath (os ex_buffered) (baseFilename (self ex_buffered)) →
         file_at (os s') p = file_at (os ex_buffered) p.
Proof.
  apply (emit_appends_record (ex_record "x") ex_buffered "tail" "head").
  - reflexivity.
  - vm_compute. reflexivity.
  - vm_compute. reflexivity.
  - reflexivity.
  - reflexivity.
Defined.

(** X5 on the directory with backup 2 and no backup 1: the gap moves up. *)
Lemma doRollover_renumbers_witness :
  ∃ s',
    doRollover ex_gap = Ret tt s' ∧
    file_at (os s') (backup_name 2 "2024-01-01") = None ∧
    file_at (os s') (backup_name 3 "2024-01-01") = Some "old2".
Proof.
  destruct (doRollover_renumbers ex_gap "2024-01-01")
    as (s' & Hr & Hj & Hn & _); [reflexivity..|].
  exists s'. split; [exact Hr|]. split.
  - rewrite (Hj 2%nat); [vm_compute; reflexivity|lia|vm_compute; reflexivity].
  - change 3%nat with (Z.to_nat (backupCount (self ex_gap))).
    rewrite Hn; [vm_compute; reflexivity|vm_compute; discriminate].
Defined.

(** X6 on a file that is no log file. *)
Lemma doRollover_touches_only_logs_witness :
  file_at (os (final (doRollover ex_backups))) "notes.txt"
  = file_at (os ex_backups) "notes.txt".
Proof.
  apply (doRollover_touches_only_logs ex_backups "2024-01-01" "notes.txt").
  - reflexivity.
  - reflexivity.
  - reflexivity.
  - vm_compute. reflexivity.
  - vm_compute. discriminate.
  - intros i _ _. apply short_name_not_backup; [reflexivity|cbn; lia].
Defined.


(** X8 on the handler with a limit of four bytes. *)
Lemma emit_rotates_by_size_witness :
  ∃ s',
    emit (ex_record "x") ex_full = Ret tt s' ∧
    file_at (os s') (backup_name 1 "2024-01-01") = Some "12345" ∧
    file_at (os s') (active_name "2024-01-01")
      = Some (format (ex_record "x") +:+ terminator) ∧
    file_at (os s') (backup_name 2 "2024-01-01") = Some "old1".
Proof.
  destruct (emit_rotates_by_size (ex_record "x") ex_full "2024-01-01" EmptyString "12345")
    as (s' & Hr & H1 & Ha & Hj & _).
  - reflexivity.
  - reflexivity.
  - vm_compute. reflexivity.
  - reflexivity.
  - vm_compute. reflexivity.
  - vm_compute. split; [reflexivity|discriminate].
  - reflexivity.
  - reflexivity.
  - exists s'. split; [exact Hr|]. split; [exact H1|]. split; [exact Ha|].
    rewrite (Hj 2%nat); [vm_compute; reflexivity|lia|vm_compute; reflexivity].
Defined.

(** X10 on the process with the server down. *)
Lemma log_to_redis_needs_server_witness :
  log_to_redis 10 "a" "listener" ex_down
  = Raise (ConnectionError "Connection refused") ex_down.
Proof.
  apply (log_to_redis_needs_server 10 "a" "listener" ex_down "Connection refused").
  reflexivity.
Defined.

(** X11 on the started process. *)
Lemma logged_message_is_newest_witness :
  last (stream_items (stream_key "listener")
          (redis_client (final (log_to_redis 10 "a" "listener" ex_system)))) = Some "a" ∧
  ∃ logs,
    get_logs 10 ex_listener (final (log_to_redis 10 "a" "listener" ex_system))
      = Ret (jsonify (LogsBody true logs)) (final (log_to_redis 10 "a" "listener" ex_system)) ∧
    "a" ∈ logs.
Proof.
  apply (logged_message_is_newest 10 "a" "listener" ex_listener ex_system).
  - vm_compute. reflexivity.
  - vm_compute. reflexivity.
Defined.

(** X12 on the stream of 1000 entries. *)
Lemma full_stream_drops_oldest_witness :
  stream_items (stream_key "listener")
    (redis_client (final (log_to_redis 10 "new" "listener" ex_crowded)))
  = replicate 999 "old" ++ ["new"].
Proof.
  apply (full_stream_drops_oldest 10 "new" "listener" ex_crowded "old" (replicate 999 "old")).
  - reflexivity.
  - vm_compute. reflexivity.
  - vm_compute. reflexivity.
Defined.

(** X14 on the started process after one call. *)
Lemma clear_logs_empties_witness :
  ∃ r s',
    clear_logs ex_listener (final (log_to_redis 10 "a" "listener" ex_system)) = Ret r s' ∧
    status r = 200 ∧
    host s' = host (final (log_to_redis 10 "a" "listener" ex_system)) ∧
    logger_handlers s' = logger_handlers (final (log_to_redis 10 "a" "listener" ex_system)) ∧
    get_logs 20 ex_listener s' = Ret (jsonify (LogsBody true [])) s'.
Proof.
  apply (clear_logs_empties ex_listener ex_listener 20
           (final (log_to_redis 10 "a" "listener" ex_system))).
  - vm_compute. reflexivity.
  - reflexivity.
Defined.

(** X15 on the process with the server down. *)
Lemma clear_logs_server_down_witness :
  clear_logs ex_listener ex_down
  = Ret (jsonify_500 (MessageBody false ("Error clearing logs: " +:+ "Connection refused")))
      ex_down.
Proof.
  apply (clear_logs_server_down ex_listener ex_down "Connection refused"). reflexivity.
Defined.

(** X16 on the sources [listener] and [processor]. *)
Lemma other_sources_untouched_witness :
  ∃ logs,
    get_logs 20 ex_processor ex_crowded = Ret (jsonify (LogsBody true logs)) ex_crowded ∧
    (let s1 := final (log_to_redis 10 "a" "listener" ex_crowded) in
     get_logs 20 ex_processor s1 = Ret (jsonify (LogsBody true logs)) s1) ∧
    (let s2 := final (clear_logs ex_listener ex_crowded) in
     get_logs 20 ex_processor s2 = Ret (jsonify (LogsBody true logs)) s2).
Proof.
  apply (other_sources_untouched 10 "a" "listener" "processor" ex_listener 20
           ex_processor ex_crowded).
  - discriminate.
  - vm_compute. reflexivity.
  - vm_compute. reflexivity.
  - reflexivity.
Defined.

(** X17 on the started process. *)
Lemma log_to_redis_writes_line_witness :
  ∃ s',
    log_to_redis 10 "a" "listener" ex_system = Ret tt s' ∧
    file_at (host s') (baseFilename ex_booted_handler)
      = Some (EmptyString +:+ EmptyString +:+
              log_line (clock (host ex_system) (tick (host ex_system))) "listener" "a") ∧
    (∀ p, abspath (host ex_system) p
            ≠ abspath (host ex_system) (baseFilename ex_booted_handler) →
       file_at (host s') p = file_at (host ex_system) p) ∧
    last (stream_items (stream_key "listener") (redis_client s')) = Some "a".
Proof.
  apply (log_to_redis_writes_line 10 "a" "listener" ex_system ex_booted_handler
           EmptyString EmptyString).
  - vm_compute. reflexivity.
  - vm_compute. reflexivity.
  - reflexivity.
  - vm_compute. reflexivity.
  - vm_compute. reflexivity.
  - reflexivity.
  - reflexivity.
Defined.

(** X18 on a request without fields and on one with [maxBytes=2] only. *)
Lemma update_missing_field_witness :
  update_logging_config ∅ ex_system = Raise BadRequestKeyError ex_system ∧
  update_logging_config {[ "maxBytes" := "2" ]} ex_system
    = Raise BadRequestKeyError ex_system.
Proof.
  split.
  - apply (update_missing_field ∅ ex_system). left. reflexivity.
  - apply (update_missing_field {[ "maxBytes" := "2" ]} ex_system). right.
    exists "2", 2. repeat split; vm_compute; reflexivity.
Defined.

(** X19 on the started process, reconfigured to 2 MiB and 7 backups on the
    same day: the file of that day is kept. *)
Lemma configure_logging_installs_witness :
  ∃ s',
    configure_logging 2097152 7 ex_system = Ret tt s' ∧
    local_max_bytes s' = 2097152 ∧
    local_backup_count s' = 7 ∧
    logger_handlers s' =
      [ {| current_date := "2024-01-01";
           base_filename := "system_logs_2024-01-01.txt";
           baseFilename := "/app/system_logs_2024-01-01.txt";
           maxBytes := 2097152; backupCount := 7;
           stream := Some EmptyString |} ] ∧
    file_at (host s') "system_logs_2024-01-01.txt" = Some EmptyString.
Proof.
  assert (E : configure_logging 2097152 7 ex_system
              = Ret tt (final (configure_logging 2097152 7 ex_system))).
  { vm_compute. reflexivity. }
  destruct (configure_logging_installs 2097152 7 ex_system _ E)
    as (Hm & Hb & Hh & _ & Hf & _).
  eexists. split; [exact E|]. split; [exact Hm|]. split; [exact Hb|].
  split; [exact Hh|]. exact Hf.
Defined.

(** X20 on the request [maxBytes=2, backupCount=7]. *)
Lemma update_installs_handler_witness :
  ∃ s' h,
    update_logging_config (ex_form "2" "7") ex_system
      = Ret (jsonify (MessageBody true "Logging configuration updated successfully!")) s' ∧
    logger_handlers s' = [h] ∧
    maxBytes h = 2097152 ∧ backupCount h = 7 ∧
    handler_ready (host s') h ∧
    local_max_bytes s' = 2097152 ∧ local_backup_count s' = 7.
Proof.
  assert (E : update_logging_config (ex_form "2" "7") ex_system
              = Ret (jsonify (MessageBody true "Logging configuration updated successfully!"))
                    (final (update_logging_config (ex_form "2" "7") ex_system))).
  { vm_compute. reflexivity. }
  destruct (update_installs_handler (ex_form "2" "7") ex_system _ _ E)
    as (a & b & v & k & h & Ha & Hb & Hv & Hk & _ & _ & _ & Hh & Hm & Hbk & Hr & Hlm & Hlb & _).
  assert (a = "2") as -> by (vm_compute in Ha; congruence).
  assert (b = "7") as -> by (vm_compute in Hb; congruence).
  assert (v = 2) as -> by (vm_compute in Hv; congruence).
  assert (k = 7) as -> by (vm_compute in Hk; congruence).
  eexists _, h. split; [exact E|]. split; [exact Hh|].
  split; [exact Hm|]. split; [exact Hbk|]. split; [exact Hr|].
  split; [exact Hlm|exact Hlb].
Defined.
